(** * The self-improving agent of [self_improving_agent.ipynb]

    A shallow embedding of the notebook's helper functions
    ([get_chat_history], [generate_response], [reflect], [learn]) and of
    the class [SelfImprovingAgent], followed by the properties of the
    reflection / learning loop.

    The session store is a Python [dict] from session ids to
    [ChatMessageHistory] objects: a [gmap string (list Message)].  The
    hosted language model is an external collaborator: a call to it is a
    node [Invoke prompt k] of a program tree, so that the prompt handed to
    the model, the number of calls and what the code does with each answer
    (text or exception) are all visible in the embedding.  *)

From stdpp Require Import gmap strings list fin_maps.

Open Scope string_scope.
Open Scope list_scope.

(** ** Messages *)

(** The three message classes of langchain that the notebook uses:
    [SystemMessage], [HumanMessage] and [AIMessage].  A prompt template
    entry [("system", t)] builds the first, [("human", t)] the second; the
    model answers with the third. *)
Inductive Role : Type := system | human | ai.

Record Message : Type := mkMessage { role : Role; content : string }.

Definition SystemMessage (text : string) : Message := mkMessage system text.
Definition HumanMessage (text : string) : Message := mkMessage human text.
Definition AIMessage (text : string) : Message := mkMessage ai text.

(** What the provider raises when a completion fails. *)
Inductive Exception : Type := ProviderError (reason : string).

(** An answer of the collaborator: an exception or the generated text. *)
Definition Answer : Type := Exception + string.

(** ** Programs that call the language model *)

(** A computation over a mutable state [S]: it ends ([Done]) with a value
    or an uncaught exception and the state it leaves behind (what Python
    mutated before an exception was raised stays mutated), or it calls the
    model ([Invoke]) with a list of messages and goes on with the answer. *)
Inductive Prog (S A : Type) : Type :=
| Done (r : Exception + A) (s : S)
| Invoke (prompt : list Message) (k : Answer -> Prog S A).

Arguments Done {S A} r s.
Arguments Invoke {S A} prompt k.

Definition M (S A : Type) : Type := S -> Prog S A.

Definition ret {S A} (a : A) : M S A := fun s => Done (inr a) s.

Fixpoint bindP {S A B} (p : Prog S A) (f : A -> M S B) : Prog S B :=
  match p with
  | Done (inl e) s => Done (inl e) s
  | Done (inr a) s => f a s
  | Invoke prompt k => Invoke prompt (fun ans => bindP (k ans) f)
  end.

Definition bind {S A B} (m : M S A) (f : A -> M S B) : M S B :=
  fun s => bindP (m s) f.

Notation "x <- c1 ;; c2" := (bind c1 (fun x => c2))
  (at level 100, c1 at next level, right associativity).
Notation "c1 ;;; c2" := (bind c1 (fun _ => c2))
  (at level 100, right associativity).

Definition modify {S} (f : S -> S) : M S unit := fun s => Done (inr tt) (f s).

(** [llm.invoke(messages)]: one call; the text comes back wrapped in an
    [AIMessage], an exception of the provider is not caught. *)
Definition llm_invoke {S} (messages : list Message) : M S Message :=
  fun s => Invoke messages (fun ans =>
    match ans with
    | inl e => Done (inl e) s
    | inr text => Done (inr (AIMessage text)) s
    end).

(** Running a computation on a part of the state (a method of the agent
    passing [self.store] to a helper function). *)
Fixpoint mapState {S T A} (f : S -> T) (p : Prog S A) : Prog T A :=
  match p with
  | Done r s => Done r (f s)
  | Invoke prompt k => Invoke prompt (fun ans => mapState f (k ans))
  end.

(** ** Executions *)

(** [Runs p tr r s]: [p] sends the prompts of [tr], in this order, gets
    the answers paired with them, and ends with [r] in state [s]. *)
Inductive Runs {S A} : Prog S A -> list (list Message * Answer) ->
                       Exception + A -> S -> Prop :=
| Runs_Done r s : Runs (Done r s) [] r s
| Runs_Invoke prompt k ans tr r s :
    Runs (k ans) tr r s -> Runs (Invoke prompt k) ((prompt, ans) :: tr) r s.

(** The collaborator as the opaque function [complete(messages) -> text |
    error] over some state [W] of the outside world. *)
Definition Collaborator (W : Type) : Type := W -> list Message -> Answer * W.

Fixpoint run {W S A} (complete : Collaborator W) (p : Prog S A) (w : W)
  : (Exception + A) * S * W :=
  match p with
  | Done r s => (r, s, w)
  | Invoke prompt k =>
      let '(ans, w') := complete w prompt in run complete (k ans) w'
  end.

Fixpoint trace {W S A} (complete : Collaborator W) (p : Prog S A) (w : W)
  : list (list Message * Answer) :=
  match p with
  | Done _ _ => []
  | Invoke prompt k =>
      let '(ans, w') := complete w prompt in
      (prompt, ans) :: trace complete (k ans) w'
  end.

(** A collaborator for examples: it answers from a list of canned answers
    and fails once the list is used up. *)
Definition scripted : Collaborator (list Answer) :=
  fun w _ =>
    match w with
    | [] => (inl (ProviderError "no answer left"), [])
    | ans :: w' => (ans, w')
    end.

(** The prompt of the first call of a program, if it makes one. *)
Definition first_prompt {S A} (p : Prog S A) : option (list Message) :=
  match p with
  | Done _ _ => None
  | Invoke prompt _ => Some prompt
  end.

(** ** Chat history management *)

Abbreviation ChatMessageHistory := (list Message).
Abbreviation Store := (gmap string (list Message)).

(** [get_chat_history(store, session_id)]: creates an empty history for an
    unknown id and returns [store[session_id]].  Python returns a reference
    to the history object; the object is reachable through the store only,
    so the reference is the session id, and reading or appending goes
    through the store at that key. *)
Definition get_chat_history (session_id : string) : M Store string :=
  fun store =>
    match store !! session_id with
    | None => Done (inr session_id) (<[session_id := []]> store)
    | Some _ => Done (inr session_id) store
    end.

(** [history.messages], on a history that [get_chat_history] returned. *)
Definition messages (history : string) : M Store (list Message) :=
  fun store => Done (inr (default [] (store !! history))) store.

(** [history.add_messages(msgs)], on a history that [get_chat_history]
    returned, hence one of the store. *)
Definition add_messages (history : string) (msgs : list Message) : M Store unit :=
  modify (alter (fun h => h ++ msgs) history).

(** [history.add_ai_message(text)] *)
Definition add_ai_message (history : string) (text : string) : M Store unit :=
  add_messages history [AIMessage text].

(** ** Response generation *)

(** [RunnableWithMessageHistory(chain, get_session_history,
    input_messages_key="input", history_messages_key="history").invoke]
    of langchain: it fetches the history of the session of the call, hands
    its messages to the chain under the key [history], and once the chain
    has returned appends the input, as a human message, and the output of
    the chain to that history.  An exception of the chain leaves the
    history as it was fetched. *)
Definition RunnableWithMessageHistory
    (chain : list Message -> string -> string -> M Store Message)
    (get_session_history : string -> M Store string)
    (input insights session_id : string) : M Store Message :=
  history <- get_session_history session_id ;;
  past <- messages history ;;
  output <- chain past input insights ;;
  (add_messages history [HumanMessage input; output] ;;;
   ret output).

Definition generate_response
    (chain_with_history : string -> string -> string -> M Store Message)
    (human_input session_id insights : string) : M Store string :=
  response <- chain_with_history human_input insights session_id ;;
  ret (content response).

(** ** Reflection *)

Definition reflection_prompt (history : list Message) : list Message :=
  [SystemMessage "Based on the following conversation history, provide insights on how to improve responses:"]
  ++ history
  ++ [HumanMessage "Generate insights for improvement:"].

Definition reflect (session_id : string) : M Store string :=
  history <- get_chat_history session_id ;;
  past <- messages history ;;
  reflection_response <- llm_invoke (reflection_prompt past) ;;
  ret (content reflection_response).

(** ** Learning *)

Definition learning_prompt (insights : string) : list Message :=
  [SystemMessage "Based on these insights, update the agent's knowledge and behavior:";
   HumanMessage insights;
   HumanMessage "Summarize the key points to remember:"].

(** The marker of the f-string [f"[SYSTEM] Agent learned: {learned_points}"]. *)
Definition learned_marker : string := "[SYSTEM] Agent learned: ".

Definition learn (session_id insights : string) : M Store string :=
  learning_response <- llm_invoke (learning_prompt insights) ;;
  let learned_points := content learning_response in
  history <- get_chat_history session_id ;;
  (add_ai_message history (learned_marker +:+ learned_points) ;;;
   ret learned_points).

(** ** The class [SelfImprovingAgent] *)

(** The mutable fields of an instance: [self.store] and [self.insights].
    [self.llm], [self.prompt], [self.chain] and [self.chain_with_history]
    are set once by [__init__] and are the definitions of the module. *)
Record Agent : Type := mkAgent { store : Store; insights : string }.

Module SelfImprovingAgent.

(** The instance [__init__] builds. *)
Definition init : Agent := {| store := ∅; insights := "" |}.

Definition with_store {A} (m : M Store A) : M Agent A :=
  fun a => mapState (fun st => {| store := st; insights := insights a |})
                    (m (store a)).

Definition set_insights (text : string) : M Agent unit :=
  modify (fun a => {| store := store a; insights := text |}).

Definition get_insights : M Agent string :=
  fun a => Done (inr (insights a)) a.

(** [self.prompt] filled with the variables [history], [input] and
    [insights]. *)
Definition prompt (history : list Message) (input insights : string)
  : list Message :=
  [SystemMessage "You are a self-improving AI assistant. Learn from your interactions and improve your performance over time."]
  ++ history
  ++ [HumanMessage input;
      SystemMessage ("Recent insights for improvement: " +:+ insights)].

(** [self.chain = self.prompt | self.llm] *)
Definition chain (history : list Message) (input insights : string)
  : M Store Message :=
  llm_invoke (prompt history input insights).

Definition chain_with_history : string -> string -> string -> M Store Message :=
  RunnableWithMessageHistory chain get_chat_history.

Definition respond (human_input session_id : string) : M Agent string :=
  current <- get_insights ;;
  with_store (generate_response chain_with_history human_input session_id current).

Definition reflect (session_id : string) : M Agent string :=
  text <- with_store (reflect session_id) ;;
  (set_insights text ;;;
   get_insights).

Definition learn (session_id : string) : M Agent string :=
  reflect session_id ;;;
  current <- get_insights ;;
  with_store (learn session_id current).

End SelfImprovingAgent.

(** The transcript of a session: the messages of its history, none for a
    session the store does not know. *)
Definition transcript (store : Store) (session_id : string) : list Message :=
  default [] (store !! session_id).

(** ** States the operations lead to *)

(** The agent once the history of [sid] exists, with the given insights. *)
Definition touched (a : Agent) (sid ins : string) : Agent :=
  {| store := <[sid := transcript (store a) sid]> (store a); insights := ins |}.

(** The agent once [msgs] were appended to the history of [sid]. *)
Definition appended (a : Agent) (sid : string) (msgs : list Message) (ins : string)
  : Agent :=
  {| store := <[sid := transcript (store a) sid ++ msgs]> (store a);
     insights := ins |}.

(** What is left of the store after a helper that got the answer [r]. *)
Definition store_after (store : Store) (sid : string)
    (added : string -> list Message) (r : Exception + string) : Store :=
  match r with
  | inl _ => <[sid := transcript store sid]> store
  | inr text => <[sid := transcript store sid ++ added text]> store
  end.

(** ** Callers *)

(** A caller that sends its inputs one after the other to the same session,
    as the example cell does, and collects the replies; an exception of a
    call ends the loop. *)
Fixpoint respond_each (inputs : list string) (session_id : string)
  : M Agent (list string) :=
  match inputs with
  | [] => ret []
  | input :: rest =>
      text <- SelfImprovingAgent.respond input session_id ;;
      texts <- respond_each rest session_id ;;
      ret (text :: texts)
  end.

(** The turns of a conversation: each input followed by its reply. *)
Fixpoint turns (inputs replies : list string) : list Message :=
  match inputs, replies with
  | input :: inputs', reply :: replies' =>
      HumanMessage input :: AIMessage reply :: turns inputs' replies'
  | _, _ => []
  end.

(** ** Properties of programs and stores *)

(** A program that gives up at the first failure of the collaborator: a
    failed call is its last call and the exception of that call is its
    outcome; and it raises no exception of its own. *)
Definition aborts_on_failure {S A} (p : Prog S A) : Prop :=
  forall tr r s, Runs p tr r s ->
    (forall before q e after,
        tr = before ++ (q, inl e) :: after -> after = [] /\ r = inl e) /\
    (forall e, r = inl e -> exists before q, tr = before ++ [(q, inl e)]).

(** The only differences between two stores are at [sid]: its history was
    created empty, or messages were appended to it. *)
Definition session_local (sid : string) (before after : Store) : Prop :=
  (forall other, other <> sid -> after !! other = before !! other) /\
  (after = before \/
   exists msgs, after = <[sid := transcript before sid ++ msgs]> before).

(** The store is as before, but for the history of [sid], which was
    created, empty, if the store did not know the session. *)
Definition only_created (sid : string) (before after : Store) : Prop :=
  (forall sid', transcript after sid' = transcript before sid') /\
  (forall other, other <> sid -> after !! other = before !! other) /\
  (is_Some (before !! sid) -> after = before) /\
  (before !! sid = None -> after = <[sid := []]> before).

(** ** The scenario of the example cell *)

(** The agent after a first exchange on session [s1]. *)
Definition after_hi : Agent :=
  {| store := {["s1" := [HumanMessage "Hi"; AIMessage "Hello"]]};
     insights := "" |}.

(** The two calls of [agent.learn] on it, with the answers of the model,
    and the agent they leave. *)
Definition learn_calls : list (list Message * Answer) :=
  [(reflection_prompt [HumanMessage "Hi"; AIMessage "Hello"], inr "be concise");
   (learning_prompt "be concise", inr "brevity")].

Definition after_learn : Agent :=
  {| store := {["s1" := [HumanMessage "Hi"; AIMessage "Hello";
                         AIMessage "[SYSTEM] Agent learned: brevity"]]};
     insights := "be concise" |}.

(** The trailing note of a prompt that carries the insights [ins]. *)
Definition insights_note (ins : string) : Message :=
  SystemMessage ("Recent insights for improvement: " +:+ ins).

(** ** Sequences of calls *)

#[global] Instance Role_eq_dec : EqDecision Role.
Proof. solve_decision. Defined.

#[global] Instance Message_eq_dec : EqDecision Message.
Proof. solve_decision. Defined.

(** A call of one of the three methods of the agent. *)
Inductive Call : Type :=
| Respond (human_input session_id : string)
| Reflect (session_id : string)
| Learn (session_id : string).

Definition perform (c : Call) : M Agent string :=
  match c with
  | Respond human_input session_id => SelfImprovingAgent.respond human_input session_id
  | Reflect session_id => SelfImprovingAgent.reflect session_id
  | Learn session_id => SelfImprovingAgent.learn session_id
  end.

(** A call that was made, what it exchanged with the model, and how it
    ended. *)
Record Event : Type :=
  mkEvent { call : Call;
            exchanges : list (list Message * Answer);
            outcome : Exception + string }.

(** [Steps a log a']: the calls of [log], made one after the other on the
    agent [a], each ending as the log tells (an exception of a call does
    not keep its caller from calling again), leave the agent [a']. *)
Inductive Steps : Agent -> list Event -> Agent -> Prop :=
| Steps_nil a : Steps a [] a
| Steps_snoc a log a1 c tr r a2 :
    Steps a log a1 -> Runs (perform c a1) tr r a2 ->
    Steps a (log ++ [mkEvent c tr r]) a2.

(** All the exchanges of a log, in order. *)
Definition exchanges_of (log : list Event) : list (list Message * Answer) :=
  concat (map exchanges log).

(** A prompt that opens with the system message of [reflect]. *)
Definition is_reflection_prompt (q : list Message) : bool :=
  bool_decide (head q = Some (SystemMessage "Based on the following conversation history, provide insights on how to improve responses:")).

(** The text of the last answered reflection prompt of a trace, [before]
    if there is none. *)
Fixpoint last_reflection (tr : list (list Message * Answer)) (before : string)
  : string :=
  match tr with
  | [] => before
  | (q, inr text) :: tr' =>
      last_reflection tr' (if is_reflection_prompt q then text else before)
  | (_, inl _) :: tr' => last_reflection tr' before
  end.

(** The session a call is about. *)
Definition session_of (c : Call) : string :=
  match c with
  | Respond _ session_id | Reflect session_id | Learn session_id => session_id
  end.

(** The turns a call that ended with [r] left in the transcript of its
    session. *)
Definition added_turns (c : Call) (r : Exception + string) : list Message :=
  match c, r with
  | Respond human_input _, inr text => [HumanMessage human_input; AIMessage text]
  | Learn _, inr points => [AIMessage (learned_marker +:+ points)]
  | _, _ => []
  end.

(** The turns the calls of a log left in the transcript of [sid]. *)
Definition turns_of (sid : string) (log : list Event) : list Message :=
  concat (map (fun ev => if decide (session_of (call ev) = sid)
                         then added_turns (call ev) (outcome ev) else [])
              log).

(** The sessions the calls of a log were about. *)
Definition sessions_of (log : list Event) : gset string :=
  list_to_set (map (fun ev => session_of (call ev)) log).

(** A transcript without system messages in which every human turn is
    directly followed by an agent turn. *)
Fixpoint well_paired (t : list Message) : bool :=
  match t with
  | [] => true
  | m :: t' =>
      match role m with
      | ai => well_paired t'
      | human =>
          match t' with
          | m' :: t'' => bool_decide (role m' = ai) && well_paired t''
          | [] => false
          end
      | system => false
      end
  end.

(** ** The example cell *)

(** The state of the cell: the variable [agent] and what was printed. *)
Record Notebook : Type := mkNotebook { agent : Agent; stdout : string }.

Definition newline : string := String (Ascii.ascii_of_nat 10) "".

(** [agent = SelfImprovingAgent()] *)
Definition new_agent : M Notebook unit :=
  modify (fun nb => {| agent := SelfImprovingAgent.init; stdout := stdout nb |}).

(** A method call on [agent]. *)
Definition with_agent {A} (m : M Agent A) : M Notebook A :=
  fun nb => mapState (fun a => {| agent := a; stdout := stdout nb |}) (m (agent nb)).

(** [print(text)]: the text and a newline. *)
Definition print (text : string) : M Notebook unit :=
  modify (fun nb => {| agent := agent nb;
                       stdout := stdout nb +:+ text +:+ newline |}).

(** [print(label, text)]: the two separated by a space, and a newline. *)
Definition print2 (label text : string) : M Notebook unit :=
  print (label +:+ " " +:+ text).

Definition example_usage : M Notebook unit :=
  new_agent ;;;
  let session_id := "user_123" in
  reply1 <- with_agent (SelfImprovingAgent.respond "What's the capital of France?" session_id) ;;
  (print2 "AI:" reply1 ;;;
  reply2 <- with_agent (SelfImprovingAgent.respond "Can you tell me more about its history?" session_id) ;;
  (print2 "AI:" reply2 ;;;
  print (newline +:+ "Reflecting and learning...") ;;;
  learned <- with_agent (SelfImprovingAgent.learn session_id) ;;
  (print2 "Learned:" learned ;;;
  reply3 <- with_agent (SelfImprovingAgent.respond "What's a famous landmark in this city?" session_id) ;;
  (print2 (newline +:+ "AI:") reply3 ;;;
  reply4 <- with_agent (SelfImprovingAgent.respond "What's another interesting fact about this city?" session_id) ;;
  print2 "AI:" reply4)))).

(** A notebook before the cell runs, and answers for its six calls. *)
Definition fresh_notebook : Notebook :=
  {| agent := SelfImprovingAgent.init; stdout := "" |}.

Definition example_answers : list Answer :=
  [inr "Paris."; inr "It is old."; inr "be concise"; inr "brevity";
   inr "The Eiffel Tower."; inr "It has many bridges."].

(** * Executions of the monad operations *)

Create HintDb runs discriminated.
#[export] Hint Constructors Runs : runs.

Lemma Runs_Done_inv {S A} (r r' : Exception + A) (s s' : S) tr :
  Runs (Done r s) tr r' s' -> tr = [] /\ r' = r /\ s' = s.
Proof. inversion 1; auto. Qed.

Lemma Runs_Invoke_inv {S A} prompt (k : Answer -> Prog S A) tr r s :
  Runs (Invoke prompt k) tr r s ->
  exists ans tr', tr = (prompt, ans) :: tr' /\ Runs (k ans) tr' r s.
Proof. inversion 1; subst; eauto. Qed.

(** A sequence [x <- p ;; f x] stops with the exception of [p], or runs
    [f] from the state [p] left. *)
Lemma Runs_bindP_inv {S A B} (p : Prog S A) (f : A -> M S B) tr r s :
  Runs (bindP p f) tr r s ->
  (exists e, r = inl e /\ Runs p tr (inl e) s) \/
  (exists a s1 tr1 tr2,
      tr = tr1 ++ tr2 /\ Runs p tr1 (inr a) s1 /\ Runs (f a s1) tr2 r s).
Proof.
  revert tr. induction p as [[e | a] s0 | prompt k IH]; intros tr H; simpl in H.
  - apply Runs_Done_inv in H as (-> & -> & ->). left; eauto with runs.
  - right. exists a, s0, [], tr. eauto with runs.
  - apply Runs_Invoke_inv in H as (ans & tr' & -> & H).
    apply IH in H as [(e & -> & H) | (a & s1 & tr1 & tr2 & -> & H1 & H2)].
    + left. eauto with runs.
    + right. exists a, s1, ((prompt, ans) :: tr1), tr2. eauto with runs.
Qed.

Lemma Runs_bindP_ret {S A B} (p : Prog S A) (f : A -> M S B) tr1 tr2 a s1 r s :
  Runs p tr1 (inr a) s1 -> Runs (f a s1) tr2 r s ->
  Runs (bindP p f) (tr1 ++ tr2) r s.
Proof.
  revert tr1. induction p as [[e' | a'] s0 | prompt k IH]; intros tr1 H1 H2; simpl.
  - apply Runs_Done_inv in H1 as (_ & [=] & _).
  - apply Runs_Done_inv in H1 as (-> & [= ->] & ->). exact H2.
  - apply Runs_Invoke_inv in H1 as (ans & tr' & -> & H1).
    simpl. eauto with runs.
Qed.

(** Every program ends, whatever the collaborator answers: [run] is a
    total function and its outcome is an execution. *)
Lemma Runs_run {W S A} (complete : Collaborator W) (p : Prog S A) (w : W) :
  Runs p (trace complete p w)
       (fst (fst (run complete p w))) (snd (fst (run complete p w))).
Proof.
  revert w. induction p as [r s | prompt k IH]; intros w; simpl.
  - constructor.
  - destruct (complete w prompt) as [ans w']. constructor. apply IH.
Qed.

(** The answers alone decide how a program ends. *)
Lemma Runs_deterministic {S A} (p : Prog S A) tr r1 s1 r2 s2 :
  Runs p tr r1 s1 -> Runs p tr r2 s2 -> r1 = r2 /\ s1 = s2.
Proof.
  intros H1. revert r2 s2. induction H1; intros r2 s2 H2.
  - apply Runs_Done_inv in H2 as (_ & -> & ->). auto.
  - apply Runs_Invoke_inv in H2 as (ans' & tr' & [= <- <-] & H2). auto.
Qed.

(** * The operations, call by call *)

(** ** On the store *)

Lemma transcript_insert_eq (store : Store) sid h :
  transcript (<[sid := h]> store) sid = h.
Proof. unfold transcript. by rewrite lookup_insert_eq. Qed.

Lemma transcript_insert_ne (store : Store) sid sid' h :
  sid <> sid' -> transcript (<[sid := h]> store) sid' = transcript store sid'.
Proof. intros Hne. unfold transcript. by rewrite lookup_insert_ne. Qed.

(** Creating the history of a session changes no transcript. *)
Lemma transcript_touch (store : Store) sid sid' :
  transcript (<[sid := transcript store sid]> store) sid' = transcript store sid'.
Proof.
  destruct (decide (sid = sid')) as [-> | Hne].
  - apply transcript_insert_eq.
  - by apply transcript_insert_ne.
Qed.

Lemma touch_known (store : Store) sid :
  is_Some (store !! sid) -> <[sid := transcript store sid]> store = store.
Proof. intros [h Hh]. apply insert_id. unfold transcript. by rewrite Hh. Qed.

Lemma get_chat_history_spec sid (store : Store) :
  get_chat_history sid store
  = Done (inr sid) (<[sid := transcript store sid]> store).
Proof.
  unfold get_chat_history, transcript.
  destruct (store !! sid) as [h |] eqn:Hh; simpl; [| done].
  by rewrite insert_id.
Qed.

(** [reflect]: one call, on the whole transcript; its answer is the
    outcome; the store has at most gained the empty history. *)
Lemma reflect_unfold sid (store : Store) :
  exists k,
    reflect sid store = Invoke (reflection_prompt (transcript store sid)) k /\
    forall ans, k ans = Done ans (<[sid := transcript store sid]> store).
Proof.
  unfold reflect, bind. rewrite get_chat_history_spec. simpl.
  rewrite lookup_insert_eq. simpl.
  eexists. split; [reflexivity |]. by intros [e | text].
Qed.

(** [learn]: one call; the learned points are appended to the history,
    behind the marker, as an AI message. *)
Lemma learn_unfold sid ins (store : Store) :
  exists k,
    learn sid ins store = Invoke (learning_prompt ins) k /\
    (forall e, k (inl e) = Done (inl e) store) /\
    (forall points, k (inr points) =
       Done (inr points)
            (<[sid := transcript store sid ++ [AIMessage (learned_marker +:+ points)]]> store)).
Proof.
  unfold learn, bind. simpl.
  eexists. split; [reflexivity |]. split; [done |].
  intros points. simpl. rewrite get_chat_history_spec. simpl.
  by rewrite alter_insert_eq.
Qed.

(** [generate_response] through the agent's [chain_with_history]. *)
Lemma generate_response_unfold input sid ins (store : Store) :
  exists k,
    generate_response SelfImprovingAgent.chain_with_history input sid ins store
    = Invoke (SelfImprovingAgent.prompt (transcript store sid) input ins) k /\
    (forall e, k (inl e) = Done (inl e) (<[sid := transcript store sid]> store)) /\
    (forall text, k (inr text) =
       Done (inr text)
            (<[sid := transcript store sid ++ [HumanMessage input; AIMessage text]]> store)).
Proof.
  unfold generate_response, SelfImprovingAgent.chain_with_history,
    RunnableWithMessageHistory, bind.
  rewrite get_chat_history_spec. simpl. rewrite lookup_insert_eq. simpl.
  eexists. split; [reflexivity |]. split; [done |].
  intros text. simpl. by rewrite alter_insert_eq.
Qed.

(** ** On the agent *)

Arguments reflect : simpl never.
Arguments learn : simpl never.
Arguments generate_response : simpl never.

Lemma agent_respond_unfold input sid (a : Agent) :
  exists k,
    SelfImprovingAgent.respond input sid a
    = Invoke (SelfImprovingAgent.prompt (transcript (store a) sid) input (insights a)) k /\
    (forall e, k (inl e) = Done (inl e) (touched a sid (insights a))) /\
    (forall text, k (inr text) =
       Done (inr text)
            (appended a sid [HumanMessage input; AIMessage text] (insights a))).
Proof.
  unfold SelfImprovingAgent.respond, bind, SelfImprovingAgent.with_store. simpl.
  destruct (generate_response_unfold input sid (insights a) (store a))
    as (k & -> & Hfail & Hok).
  simpl. eexists. split; [reflexivity |].
  split; intros x; simpl; [by rewrite Hfail | by rewrite Hok].
Qed.

Lemma agent_reflect_unfold sid (a : Agent) :
  exists k,
    SelfImprovingAgent.reflect sid a
    = Invoke (reflection_prompt (transcript (store a) sid)) k /\
    (forall e, k (inl e) = Done (inl e) (touched a sid (insights a))) /\
    (forall text, k (inr text) = Done (inr text) (touched a sid text)).
Proof.
  unfold SelfImprovingAgent.reflect, bind, SelfImprovingAgent.with_store.
  destruct (reflect_unfold sid (store a)) as (k & -> & Hk).
  simpl. eexists. split; [reflexivity |].
  split; intros x; simpl; by rewrite Hk.
Qed.

Lemma agent_learn_unfold sid (a : Agent) :
  exists k,
    SelfImprovingAgent.learn sid a
    = Invoke (reflection_prompt (transcript (store a) sid)) k /\
    (forall e, k (inl e) = Done (inl e) (touched a sid (insights a))) /\
    (forall text, exists k',
        k (inr text) = Invoke (learning_prompt text) k' /\
        (forall e, k' (inl e) = Done (inl e) (touched a sid text)) /\
        (forall points, k' (inr points) =
           Done (inr points)
                (appended a sid [AIMessage (learned_marker +:+ points)] text))).
Proof.
  unfold SelfImprovingAgent.learn, bind.
  destruct (agent_reflect_unfold sid a) as (k & -> & Hfail & Hok).
  simpl. eexists. split; [reflexivity |].
  split; [intros e; simpl; by rewrite Hfail |].
  intros text. simpl. rewrite Hok. cbn. unfold SelfImprovingAgent.with_store. cbn.
  destruct (learn_unfold sid text (<[sid := transcript (store a) sid]> (store a)))
    as (k' & -> & Hfail' & Hok').
  simpl. eexists. split; [reflexivity |].
  split; intros x; simpl; [by rewrite Hfail' |].
  rewrite Hok'. unfold appended.
  by rewrite transcript_insert_eq, insert_insert_eq.
Qed.

(** * Executions of the operations *)

Ltac one_call H :=
  apply Runs_Invoke_inv in H as (? & ? & -> & H).
Ltac finished H :=
  apply Runs_Done_inv in H as (-> & -> & ->).

Lemma reflect_runs sid (store : Store) tr r store' :
  Runs (reflect sid store) tr r store' <->
  tr = [(reflection_prompt (transcript store sid), r)] /\
  store' = <[sid := transcript store sid]> store.
Proof.
  destruct (reflect_unfold sid store) as (k & -> & Hk). split.
  - intros H. one_call H. rewrite Hk in H. by finished H.
  - intros (-> & ->). constructor. rewrite Hk. constructor.
Qed.

Lemma learn_runs sid ins (store : Store) tr r store' :
  Runs (learn sid ins store) tr r store' <->
  tr = [(learning_prompt ins, r)] /\
  store' = match r with
           | inl _ => store
           | inr points =>
               <[sid := transcript store sid
                        ++ [AIMessage (learned_marker +:+ points)]]> store
           end.
Proof.
  destruct (learn_unfold sid ins store) as (k & -> & Hfail & Hok). split.
  - intros H. one_call H.
    destruct x as [e | points]; [rewrite Hfail in H | rewrite Hok in H];
      by finished H.
  - intros (-> & ->). constructor.
    destruct r as [e | points]; [rewrite Hfail | rewrite Hok]; constructor.
Qed.

Lemma generate_response_runs input sid ins (store : Store) tr r store' :
  Runs (generate_response SelfImprovingAgent.chain_with_history input sid ins store) tr r store' <->
  tr = [(SelfImprovingAgent.prompt (transcript store sid) input ins, r)] /\
  store' = store_after store sid
             (fun text => [HumanMessage input; AIMessage text]) r.
Proof.
  destruct (generate_response_unfold input sid ins store)
    as (k & -> & Hfail & Hok). split.
  - intros H. one_call H.
    destruct x as [e | text]; [rewrite Hfail in H | rewrite Hok in H];
      by finished H.
  - intros (-> & ->). constructor.
    destruct r as [e | text]; [rewrite Hfail | rewrite Hok]; constructor.
Qed.

Lemma agent_respond_runs input sid (a : Agent) tr r a' :
  Runs (SelfImprovingAgent.respond input sid a) tr r a' <->
  tr = [(SelfImprovingAgent.prompt (transcript (store a) sid) input (insights a), r)] /\
  a' = match r with
       | inl _ => touched a sid (insights a)
       | inr text =>
           appended a sid [HumanMessage input; AIMessage text] (insights a)
       end.
Proof.
  destruct (agent_respond_unfold input sid a) as (k & -> & Hfail & Hok). split.
  - intros H. one_call H.
    destruct x as [e | text]; [rewrite Hfail in H | rewrite Hok in H];
      by finished H.
  - intros (-> & ->). constructor.
    destruct r as [e | text]; [rewrite Hfail | rewrite Hok]; constructor.
Qed.

Lemma agent_reflect_runs sid (a : Agent) tr r a' :
  Runs (SelfImprovingAgent.reflect sid a) tr r a' <->
  tr = [(reflection_prompt (transcript (store a) sid), r)] /\
  a' = touched a sid (match r with inl _ => insights a | inr text => text end).
Proof.
  destruct (agent_reflect_unfold sid a) as (k & -> & Hfail & Hok). split.
  - intros H. one_call H.
    destruct x as [e | text]; [rewrite Hfail in H | rewrite Hok in H];
      by finished H.
  - intros (-> & ->). constructor.
    destruct r as [e | text]; [rewrite Hfail | rewrite Hok]; constructor.
Qed.

(** [agent.learn]: the reflection call, then, unless it failed, the
    learning call on the reflection text. *)
Lemma agent_learn_runs sid (a : Agent) tr r a' :
  Runs (SelfImprovingAgent.learn sid a) tr r a' <->
  (exists e,
      tr = [(reflection_prompt (transcript (store a) sid), inl e)] /\
      r = inl e /\ a' = touched a sid (insights a)) \/
  (exists text,
      tr = [(reflection_prompt (transcript (store a) sid), inr text);
            (learning_prompt text, r)] /\
      a' = match r with
           | inl _ => touched a sid text
           | inr points =>
               appended a sid [AIMessage (learned_marker +:+ points)] text
           end).
Proof.
  destruct (agent_learn_unfold sid a) as (k & -> & Hfail & Hok). split.
  - intros H. one_call H. destruct x as [e | text].
    + rewrite Hfail in H. finished H. left. eauto.
    + destruct (Hok text) as (k' & Hk' & Hfail' & Hok'). rewrite Hk' in H.
      one_call H. right. exists text.
      destruct x as [e | points]; [rewrite Hfail' in H | rewrite Hok' in H];
        by finished H.
  - intros [(e & -> & -> & ->) | (text & -> & ->)]; constructor.
    + rewrite Hfail. constructor.
    + destruct (Hok text) as (k' & -> & Hfail' & Hok'). constructor.
      destruct r as [e | points]; [rewrite Hfail' | rewrite Hok']; constructor.
Qed.

(** * Strings and turns *)

Lemma substring_whole (s : string) : String.substring 0 (String.length s) s = s.
Proof. induction s as [| c s IH]; simpl; [done | by rewrite IH]. Qed.

Lemma substring_after_prefix (p s : string) :
  String.substring (String.length p) (String.length (p +:+ s) - String.length p) (p +:+ s) = s.
Proof.
  induction p as [| c p IH]; simpl.
  - rewrite Nat.sub_0_r. apply substring_whole.
  - exact IH.
Qed.

Lemma prefix_app (p s : string) : String.prefix p (p +:+ s) = true.
Proof.
  apply String.prefix_correct.
  induction p as [| c p IH]; simpl; [by destruct s | by rewrite IH].
Qed.

Lemma prompt_last history input ins :
  last (SelfImprovingAgent.prompt history input ins)
  = Some (insights_note ins).
Proof.
  unfold SelfImprovingAgent.prompt.
  rewrite app_assoc.
  change [HumanMessage input; SystemMessage ("Recent insights for improvement: " +:+ ins)]
    with ([HumanMessage input] ++ [insights_note ins]).
  rewrite app_assoc. apply last_snoc.
Qed.

Lemma respond_first_prompt input sid (a : Agent) :
  first_prompt (SelfImprovingAgent.respond input sid a)
  = Some (SelfImprovingAgent.prompt (transcript (store a) sid) input (insights a)).
Proof. by destruct (agent_respond_unfold input sid a) as (k & -> & _). Qed.

Lemma turns_length inputs replies :
  length replies = length inputs ->
  length (turns inputs replies) = 2 * length inputs.
Proof.
  revert replies. induction inputs as [| input inputs IH];
    intros [| reply replies] Hlen; simpl in *; try done.
  rewrite IH by lia. lia.
Qed.

Lemma turns_lookup inputs replies i input reply :
  inputs !! i = Some input -> replies !! i = Some reply ->
  turns inputs replies !! (2 * i) = Some (HumanMessage input) /\
  turns inputs replies !! (2 * i + 1) = Some (AIMessage reply).
Proof.
  revert replies i. induction inputs as [| input0 inputs IH];
    intros [| reply0 replies] i Hi Hr; try done.
  destruct i as [| i]; simpl in *.
  - by injection Hi as ->; injection Hr as ->.
  - replace (i + S (i + 0)) with (S (2 * i)) by lia.
    replace (S (2 * i) + 1) with (S (2 * i + 1)) by lia.
    simpl. by apply IH.
Qed.

(** * Respond, many times *)

Lemma respond_each_runs inputs sid (a : Agent) tr replies a' :
  Runs (respond_each inputs sid a) tr (inr replies) a' ->
  length replies = length inputs /\
  length tr = length inputs /\
  insights a' = insights a /\
  transcript (store a') sid = transcript (store a) sid ++ turns inputs replies /\
  forall other, other <> sid -> store a' !! other = store a !! other.
Proof.
  revert a tr replies. induction inputs as [| input inputs IH];
    intros a tr replies H; simpl in H.
  - apply Runs_Done_inv in H as (-> & [= ->] & ->).
    simpl. by rewrite app_nil_r.
  - apply Runs_bindP_inv in H
      as [(e & [=] & _) | (text & a1 & tr1 & tr2 & -> & H1 & H)].
    apply agent_respond_runs in H1 as (-> & ->).
    apply Runs_bindP_inv in H
      as [(e & [=] & _) | (texts & a2 & tr3 & tr4 & -> & H2 & H)].
    apply Runs_Done_inv in H as (-> & [= ->] & ->).
    apply IH in H2 as (Hlen & Htr & Hins & Hts & Hother).
    simpl in *. rewrite transcript_insert_eq in Hts.
    rewrite Hts, <- app_assoc, length_app. simpl.
    repeat split; try lia; try done.
    intros other Hne. rewrite Hother by done. by apply lookup_insert_ne.
Qed.

(** Whatever the model replies, the calls of [respond_each] all return. *)
Lemma respond_each_succeeds inputs replies sid (a : Agent) :
  length replies = length inputs ->
  exists tr a', Runs (respond_each inputs sid a) tr (inr replies) a'.
Proof.
  revert replies a. induction inputs as [| input inputs IH];
    intros [| reply replies] a Hlen; simplify_eq/=.
  - do 2 eexists. constructor.
  - destruct (IH replies
                (appended a sid [HumanMessage input; AIMessage reply] (insights a))
                Hlen) as (tr & a' & Hrest).
    exists ([(SelfImprovingAgent.prompt (transcript (store a) sid) input (insights a),
              inr reply)] ++ tr ++ []), a'.
    unfold bind. eapply Runs_bindP_ret.
    + by apply (agent_respond_runs input sid a _ (inr reply)).
    + eapply Runs_bindP_ret; [exact Hrest | constructor].
Qed.

(** The example cell, on canned answers: an exchange, [agent.learn], an
    exchange. *)
Example example_cell :
  run scripted
      ((SelfImprovingAgent.respond "Hi" "s1" ;;;
        SelfImprovingAgent.learn "s1" ;;;
        SelfImprovingAgent.respond "More" "s1") SelfImprovingAgent.init)
      [inr "Hello"; inr "be concise"; inr "brevity"; inr "Sure"]
  = (inr "Sure",
     {| store := {["s1" := [HumanMessage "Hi"; AIMessage "Hello";
                            AIMessage "[SYSTEM] Agent learned: brevity";
                            HumanMessage "More"; AIMessage "Sure"]]};
        insights := "be concise" |},
     []).
Proof. by vm_compute. Qed.

(** * The reflection and learning loop *)

(** C1, as the code has it: when [agent.learn] on a session returns the
    learned text, the insights the agent stores are the text of the
    reflection call made first, the text the learning call was asked to
    summarise, and the trailing note of the next [respond], on any session,
    carries that reflection text.  The learned text itself went to the
    transcript of the session, behind the marker. *)
Theorem learn_stores_reflection sid (a : Agent) tr points a' :
  Runs (SelfImprovingAgent.learn sid a) tr (inr points) a' ->
  exists text,
    tr = [(reflection_prompt (transcript (store a) sid), inr text);
          (learning_prompt text, inr points)] /\
    insights a' = text /\
    transcript (store a') sid
    = transcript (store a) sid ++ [AIMessage (learned_marker +:+ points)] /\
    forall input sid', exists p,
      first_prompt (SelfImprovingAgent.respond input sid' a') = Some p /\
      last p = Some (insights_note text).
Proof.
  intros H. apply agent_learn_runs in H as [(e & _ & [=] & _) | (text & -> & ->)].
  exists text. split; [done |]. split; [done |].
  split; [apply transcript_insert_eq |].
  intros input sid'. eexists. split; [apply respond_first_prompt |].
  apply prompt_last.
Qed.

(** The agent of the scenario is the fresh agent after one exchange. *)
Lemma init_respond_hi :
  Runs (SelfImprovingAgent.respond "Hi" "s1" SelfImprovingAgent.init)
       [(SelfImprovingAgent.prompt [] "Hi" "", inr "Hello")]
       (inr "Hello") after_hi.
Proof. apply agent_respond_runs. split; reflexivity. Qed.

Lemma after_hi_learn :
  Runs (SelfImprovingAgent.learn "s1" after_hi) learn_calls (inr "brevity") after_learn.
Proof.
  apply agent_learn_runs. right. exists "be concise". split; [reflexivity |].
  unfold after_learn, appended, after_hi, transcript. simpl.
  rewrite lookup_singleton_eq. simpl. by rewrite insert_singleton_eq.
Qed.

Lemma learn_stores_reflection_witness :
  Runs (SelfImprovingAgent.learn "s1" after_hi) learn_calls (inr "brevity") after_learn /\
  exists text,
    learn_calls
    = [(reflection_prompt (transcript (store after_hi) "s1"), inr text);
       (learning_prompt text, inr "brevity")] /\
    insights after_learn = text /\
    transcript (store after_learn) "s1"
    = transcript (store after_hi) "s1" ++ [AIMessage (learned_marker +:+ "brevity")] /\
    forall input sid', exists p,
      first_prompt (SelfImprovingAgent.respond input sid' after_learn) = Some p /\
      last p = Some (insights_note text).
Proof.
  split; [exact after_hi_learn |].
  exact (learn_stores_reflection "s1" after_hi learn_calls "brevity" after_learn
           after_hi_learn).
Defined.

(** C1, as the specification states it, fails: [agent.learn] returns
    ["brevity"] while the agent stores ["be concise"], and the note of the
    next [respond] does not contain the returned text. *)
Lemma learn_insights_differ_from_returned_text :
  let '(r, a', _) :=
    run scripted (SelfImprovingAgent.learn "s1" after_hi)
        [inr "be concise"; inr "brevity"] in
  r = inr "brevity" /\
  insights a' <> "brevity" /\
  exists p note,
    first_prompt (SelfImprovingAgent.respond "More" "s1" a') = Some p /\
    last p = Some note /\
    note = insights_note "be concise" /\
    String.index 0 "brevity" (content note) = None.
Proof.
  vm_compute. split; [reflexivity |]. split; [discriminate |].
  do 2 eexists. repeat split; reflexivity.
Qed.

(** C2: the insights are one field of the agent, not one per session.
    For distinct sessions [A] and [B], once [agent.reflect] or
    [agent.learn] on [A] has set them, the very next [respond] on [B]
    sends a prompt made of [B]'s own transcript, untouched, and of a
    trailing note that carries the insights just set on behalf of [A]. *)
Theorem insights_shared_across_sessions (A B : string) (a : Agent) input :
  A <> B ->
  (forall tr text a',
      Runs (SelfImprovingAgent.reflect A a) tr (inr text) a' ->
      insights a' = text /\
      first_prompt (SelfImprovingAgent.respond input B a')
      = Some (SelfImprovingAgent.prompt (transcript (store a) B) input text) /\
      last (SelfImprovingAgent.prompt (transcript (store a) B) input text)
      = Some (insights_note (insights a'))) /\
  (forall tr points a',
      Runs (SelfImprovingAgent.learn A a) tr (inr points) a' ->
      exists q text rest,
        tr = (q, inr text) :: rest /\
        insights a' = text /\
        first_prompt (SelfImprovingAgent.respond input B a')
        = Some (SelfImprovingAgent.prompt (transcript (store a) B) input text) /\
        last (SelfImprovingAgent.prompt (transcript (store a) B) input text)
        = Some (insights_note (insights a'))).
Proof.
  intros Hne. split.
  - intros tr text a' H. apply agent_reflect_runs in H as (-> & ->). simpl.
    split; [done |]. rewrite respond_first_prompt. simpl.
    rewrite transcript_insert_ne by done. split; [done | apply prompt_last].
  - intros tr points a' H.
    apply agent_learn_runs in H as [(e & _ & [=] & _) | (text & -> & ->)].
    do 3 eexists. split; [reflexivity |]. simpl. split; [done |].
    rewrite respond_first_prompt. simpl.
    rewrite transcript_insert_ne by done. split; [done | apply prompt_last].
Qed.

Lemma insights_shared_across_sessions_witness :
  "s1" <> "s2" /\
  Runs (SelfImprovingAgent.learn "s1" after_hi) learn_calls (inr "brevity") after_learn /\
  exists q text rest,
    learn_calls = (q, inr text) :: rest /\
    insights after_learn = text /\
    first_prompt (SelfImprovingAgent.respond "More" "s2" after_learn)
    = Some (SelfImprovingAgent.prompt (transcript (store after_hi) "s2") "More" text) /\
    last (SelfImprovingAgent.prompt (transcript (store after_hi) "s2") "More" text)
    = Some (insights_note (insights after_learn)).
Proof.
  assert (Hne : "s1" <> "s2") by discriminate.
  split; [exact Hne |]. split; [exact after_hi_learn |].
  exact (proj2 (insights_shared_across_sessions "s1" "s2" after_hi "More" Hne)
               learn_calls "brevity" after_learn after_hi_learn).
Defined.

(** C3: on a session whose transcript is empty, [N] calls of [respond]
    that all return leave a transcript of [2 * N] turns: each input as a
    human turn followed by its reply as an agent turn, in the order of the
    calls. *)
Theorem respond_each_transcript inputs sid (a : Agent) tr replies a' :
  transcript (store a) sid = [] ->
  Runs (respond_each inputs sid a) tr (inr replies) a' ->
  length replies = length inputs /\
  length tr = length inputs /\
  transcript (store a') sid = turns inputs replies /\
  length (transcript (store a') sid) = 2 * length inputs /\
  forall i input reply,
    inputs !! i = Some input -> replies !! i = Some reply ->
    transcript (store a') sid !! (2 * i) = Some (mkMessage human input) /\
    transcript (store a') sid !! (2 * i + 1) = Some (mkMessage ai reply).
Proof.
  intros Hfresh H.
  apply respond_each_runs in H as (Hlen & Htr & _ & Hts & _).
  rewrite Hfresh in Hts. simpl in Hts. rewrite Hts.
  repeat split; try done.
  - by apply turns_length.
  - by eapply turns_lookup.
  - by eapply turns_lookup.
Qed.

Lemma respond_each_transcript_witness :
  transcript (store SelfImprovingAgent.init) "s1" = [] /\
  fst (fst (run scripted (respond_each ["Hi"; "More"] "s1" SelfImprovingAgent.init)
                [inr "Hello"; inr "Sure"]))
  = inr ["Hello"; "Sure"] /\
  transcript
    (store (snd (fst (run scripted
                          (respond_each ["Hi"; "More"] "s1" SelfImprovingAgent.init)
                          [inr "Hello"; inr "Sure"]))))
    "s1"
  = [HumanMessage "Hi"; AIMessage "Hello"; HumanMessage "More"; AIMessage "Sure"].
Proof.
  assert (Hfresh : transcript (store SelfImprovingAgent.init) "s1" = [])
    by reflexivity.
  assert (Hok : fst (fst (run scripted
                    (respond_each ["Hi"; "More"] "s1" SelfImprovingAgent.init)
                    [inr "Hello"; inr "Sure"]))
                = inr ["Hello"; "Sure"]) by (vm_compute; reflexivity).
  split; [exact Hfresh |]. split; [exact Hok |].
  pose proof (Runs_run scripted
                (respond_each ["Hi"; "More"] "s1" SelfImprovingAgent.init)
                [inr "Hello"; inr "Sure"]) as Hrun.
  rewrite Hok in Hrun.
  exact (proj1 (proj2 (proj2
           (respond_each_transcript _ _ _ _ _ _ Hfresh Hrun)))).
Defined.

(** C4: a call of [learn] that returns appends one turn to the transcript
    of its session; the text of that turn begins with the marker, and what
    follows the marker is the text [learn] returns.  The same holds of
    [agent.learn], whose reflection call appends nothing. *)
Theorem learn_appends_marked_turn sid ins (st : Store) (a : Agent) :
  (forall tr points st',
      Runs (learn sid ins st) tr (inr points) st' ->
      exists turn,
        transcript st' sid = transcript st sid ++ [turn] /\
        String.prefix learned_marker (content turn) = true /\
        String.substring (String.length learned_marker)
          (String.length (content turn) - String.length learned_marker)
          (content turn) = points) /\
  (forall tr points a',
      Runs (SelfImprovingAgent.learn sid a) tr (inr points) a' ->
      exists turn,
        transcript (store a') sid = transcript (store a) sid ++ [turn] /\
        String.prefix learned_marker (content turn) = true /\
        String.substring (String.length learned_marker)
          (String.length (content turn) - String.length learned_marker)
          (content turn) = points).
Proof.
  split.
  - intros tr points st' H. apply learn_runs in H as (-> & ->).
    exists (AIMessage (learned_marker +:+ points)).
    split; [apply transcript_insert_eq |].
    split; [apply prefix_app | apply substring_after_prefix].
  - intros tr points a' H.
    apply agent_learn_runs in H as [(e & _ & [=] & _) | (text & -> & ->)].
    exists (AIMessage (learned_marker +:+ points)).
    split; [apply transcript_insert_eq |].
    split; [apply prefix_app | apply substring_after_prefix].
Qed.

Lemma learn_appends_marked_turn_witness :
  Runs (SelfImprovingAgent.learn "s1" after_hi) learn_calls (inr "brevity") after_learn /\
  exists turn,
    transcript (store after_learn) "s1" = transcript (store after_hi) "s1" ++ [turn] /\
    String.prefix learned_marker (content turn) = true /\
    String.substring (String.length learned_marker)
      (String.length (content turn) - String.length learned_marker)
      (content turn) = "brevity".
Proof.
  split; [exact after_hi_learn |].
  exact (proj2 (learn_appends_marked_turn "s1" "" ∅ after_hi)
               learn_calls "brevity" after_learn after_hi_learn).
Defined.

(** C5, as the code has it: the turn [learn] appends is an [AIMessage],
    the class of the replies that [respond] appends; only the marker in
    its text tells it from a reply. *)
Theorem learn_turn_is_ai_message sid ins input (st : Store) :
  (forall tr points st',
      Runs (learn sid ins st) tr (inr points) st' ->
      exists turn,
        transcript st' sid = transcript st sid ++ [turn] /\
        role turn = ai /\
        content turn = "[SYSTEM] Agent learned: " +:+ points) /\
  (forall tr text st',
      Runs (generate_response SelfImprovingAgent.chain_with_history input sid ins st)
           tr (inr text) st' ->
      exists asked reply,
        transcript st' sid = transcript st sid ++ [asked; reply] /\
        role asked = human /\ role reply = ai /\ content reply = text).
Proof.
  split.
  - intros tr points st' H. apply learn_runs in H as (-> & ->).
    eexists. split; [apply transcript_insert_eq | done].
  - intros tr text st' H. apply generate_response_runs in H as (-> & ->).
    do 2 eexists. split; [apply transcript_insert_eq | done].
Qed.

Lemma learn_turn_is_ai_message_witness :
  Runs (learn "s1" "be concise" ∅) [(learning_prompt "be concise", inr "brevity")]
       (inr "brevity") {["s1" := [AIMessage "[SYSTEM] Agent learned: brevity"]]} /\
  exists turn,
    transcript {["s1" := [AIMessage "[SYSTEM] Agent learned: brevity"]]} "s1"
    = transcript ∅ "s1" ++ [turn] /\
    role turn = ai /\
    content turn = "[SYSTEM] Agent learned: " +:+ "brevity".
Proof.
  assert (Hrun : Runs (learn "s1" "be concise" ∅)
                   [(learning_prompt "be concise", inr "brevity")]
                   (inr "brevity")
                   {["s1" := [AIMessage "[SYSTEM] Agent learned: brevity"]]}).
  { apply learn_runs. split; reflexivity. }
  split; [exact Hrun |].
  exact (proj1 (learn_turn_is_ai_message "s1" "be concise" "" ∅) _ _ _ Hrun).
Defined.

(** C5, as the specification states it, fails: the turn [learn] appends
    has the role of the agent, not a role of its own. *)
Lemma learn_turn_is_not_system :
  let '(r, st', _) :=
    run scripted (learn "s1" "be concise" ∅) [inr "brevity"] in
  r = inr "brevity" /\
  exists turn,
    transcript st' "s1" = [turn] /\
    role turn <> system /\
    role turn = role (AIMessage "an ordinary reply").
Proof.
  vm_compute. split; [reflexivity |].
  eexists. split; [reflexivity |]. split; [discriminate | reflexivity].
Qed.

Lemma only_created_touch sid (st : Store) :
  only_created sid st (<[sid := transcript st sid]> st).
Proof.
  repeat split.
  - intros sid'. apply transcript_touch.
  - intros other Hne. by apply lookup_insert_ne.
  - apply touch_known.
  - intros Hnone. unfold transcript. by rewrite Hnone.
Qed.

(** C6, as the code has it: [reflect], whether its call fails or not,
    changes the messages of no transcript; it leaves a store that knows
    the session as it is, and adds the empty history of the session to a
    store that does not.  So does [agent.reflect], which changes the
    insights besides. *)
Theorem reflect_keeps_transcripts sid (st : Store) (a : Agent) :
  (forall tr r st', Runs (reflect sid st) tr r st' -> only_created sid st st') /\
  (forall tr r a', Runs (SelfImprovingAgent.reflect sid a) tr r a' ->
                   only_created sid (store a) (store a')).
Proof.
  split.
  - intros tr r st' H. apply reflect_runs in H as (_ & ->).
    apply only_created_touch.
  - intros tr r a' H. apply agent_reflect_runs in H as (_ & ->).
    apply only_created_touch.
Qed.

Lemma reflect_keeps_transcripts_witness :
  Runs (SelfImprovingAgent.reflect "s1" after_hi)
       [(reflection_prompt [HumanMessage "Hi"; AIMessage "Hello"], inr "be concise")]
       (inr "be concise") (touched after_hi "s1" "be concise") /\
  is_Some (store after_hi !! "s1") /\
  store (touched after_hi "s1" "be concise") = store after_hi.
Proof.
  assert (Hrun : Runs (SelfImprovingAgent.reflect "s1" after_hi)
       [(reflection_prompt [HumanMessage "Hi"; AIMessage "Hello"], inr "be concise")]
       (inr "be concise") (touched after_hi "s1" "be concise")).
  { apply agent_reflect_runs. split; reflexivity. }
  assert (Hknown : is_Some (store after_hi !! "s1")) by (vm_compute; eauto).
  split; [exact Hrun |]. split; [exact Hknown |].
  exact (proj1 (proj2 (proj2
           (proj2 (reflect_keeps_transcripts "s1" ∅ after_hi) _ _ _ Hrun)))
           Hknown).
Defined.

(** C6, as the specification states it, fails: [reflect] on a session the
    store does not know leaves a store that is not the one it found. *)
Lemma reflect_creates_history :
  fst (fst (run scripted (reflect "s1" ∅) [inr "be concise"])) = inr "be concise" /\
  (∅ : Store) !! "s1" = None /\
  snd (fst (run scripted (reflect "s1" ∅) [inr "be concise"])) !! "s1" = Some [] /\
  snd (fst (run scripted (reflect "s1" ∅) [inr "be concise"])) <> ∅.
Proof.
  split; [by vm_compute |]. split; [by vm_compute |]. split; [by vm_compute |].
  intros Heq. apply (f_equal (fun st => st !! "s1")) in Heq.
  vm_compute in Heq. discriminate.
Qed.

(** C7: the prompt of [respond] is, in this order, the fixed system
    instruction, the whole transcript of the session, the input as a human
    message, and a system message that ends with the insights handed over,
    those of the agent in the method. *)
Theorem respond_prompt_layout input sid ins (st : Store) (a : Agent) :
  first_prompt (generate_response SelfImprovingAgent.chain_with_history input sid ins st)
  = Some ([mkMessage system "You are a self-improving AI assistant. Learn from your interactions and improve your performance over time."]
          ++ transcript st sid
          ++ [mkMessage human input]
          ++ [mkMessage system ("Recent insights for improvement: " +:+ ins)]) /\
  first_prompt (SelfImprovingAgent.respond input sid a)
  = Some ([mkMessage system "You are a self-improving AI assistant. Learn from your interactions and improve your performance over time."]
          ++ transcript (store a) sid
          ++ [mkMessage human input]
          ++ [mkMessage system ("Recent insights for improvement: " +:+ insights a)]).
Proof.
  split.
  - by destruct (generate_response_unfold input sid ins st) as (k & -> & _).
  - apply respond_first_prompt.
Qed.

(** * Failures of the collaborator *)

(** A program whose executions are one call, the answer of which is its
    outcome, gives up at the failure of that call. *)
Lemma one_call_aborts {S} (p : Prog S string) :
  (forall tr r s, Runs p tr r s -> exists q, tr = [(q, r)]) ->
  aborts_on_failure p.
Proof.
  intros Hone tr r s H. destruct (Hone _ _ _ H) as (q & ->). split.
  - intros before q' e after Heq.
    destruct before as [| c [| c' before]]; by simplify_eq/=.
  - intros e ->. by exists [], q.
Qed.

(** C8: [respond], [reflect] and [learn], as helper functions and as
    methods, begin with a call of the collaborator whatever the session
    id, the insights and the transcript are; a call that fails is the last
    call they make, its exception is their outcome, and they raise no
    exception that the collaborator did not raise. *)
Theorem failures_surface_unmodified input sid ins (st : Store) (a : Agent) :
  (is_Some (first_prompt
              (generate_response SelfImprovingAgent.chain_with_history input sid ins st)) /\
   aborts_on_failure
     (generate_response SelfImprovingAgent.chain_with_history input sid ins st)) /\
  (is_Some (first_prompt (reflect sid st)) /\
   aborts_on_failure (reflect sid st)) /\
  (is_Some (first_prompt (learn sid ins st)) /\
   aborts_on_failure (learn sid ins st)) /\
  (is_Some (first_prompt (SelfImprovingAgent.respond input sid a)) /\
   aborts_on_failure (SelfImprovingAgent.respond input sid a)) /\
  (is_Some (first_prompt (SelfImprovingAgent.reflect sid a)) /\
   aborts_on_failure (SelfImprovingAgent.reflect sid a)) /\
  (is_Some (first_prompt (SelfImprovingAgent.learn sid a)) /\
   aborts_on_failure (SelfImprovingAgent.learn sid a)).
Proof.
  repeat apply conj.
  - by destruct (generate_response_unfold input sid ins st) as (k & -> & _).
  - apply one_call_aborts. intros tr r s H.
    apply generate_response_runs in H as (-> & _). eauto.
  - by destruct (reflect_unfold sid st) as (k & -> & _).
  - apply one_call_aborts. intros tr r s H.
    apply reflect_runs in H as (-> & _). eauto.
  - by destruct (learn_unfold sid ins st) as (k & -> & _).
  - apply one_call_aborts. intros tr r s H.
    apply learn_runs in H as (-> & _). eauto.
  - by destruct (agent_respond_unfold input sid a) as (k & -> & _).
  - apply one_call_aborts. intros tr r s H.
    apply agent_respond_runs in H as (-> & _). eauto.
  - by destruct (agent_reflect_unfold sid a) as (k & -> & _).
  - apply one_call_aborts. intros tr r s H.
    apply agent_reflect_runs in H as (-> & _). eauto.
  - by destruct (agent_learn_unfold sid a) as (k & -> & _).
  - intros tr r s H.
    apply agent_learn_runs in H as [(e & -> & -> & _) | (text & -> & _)]; split.
    + intros before q e' after Heq.
      destruct before as [| c [| c' before]]; by simplify_eq/=.
    + intros e' [= <-]. by eexists [], _.
    + intros before q e' after Heq.
      destruct before as [| c [| c' [| c'' before]]]; by simplify_eq/=.
    + intros e' ->. by eexists [_], _.
Qed.

Lemma failures_surface_unmodified_witness :
  Runs (SelfImprovingAgent.learn "s1" after_hi)
       [(reflection_prompt [HumanMessage "Hi"; AIMessage "Hello"], inr "be concise");
        (learning_prompt "be concise", inl (ProviderError "rate limit"))]
       (inl (ProviderError "rate limit"))
       (touched after_hi "s1" "be concise") /\
  exists before q,
    [(reflection_prompt [HumanMessage "Hi"; AIMessage "Hello"], inr "be concise");
     (learning_prompt "be concise", inl (ProviderError "rate limit"))]
    = before ++ [(q, inl (ProviderError "rate limit") : Answer)].
Proof.
  assert (Hrun : Runs (SelfImprovingAgent.learn "s1" after_hi)
       [(reflection_prompt [HumanMessage "Hi"; AIMessage "Hello"], inr "be concise");
        (learning_prompt "be concise", inl (ProviderError "rate limit"))]
       (inl (ProviderError "rate limit"))
       (touched after_hi "s1" "be concise")).
  { apply agent_learn_runs. right. exists "be concise". split; reflexivity. }
  split; [exact Hrun |].
  exact (proj2 (proj2 (proj2 (proj2 (proj2 (proj2 (proj2
           (failures_surface_unmodified "" "s1" "" ∅ after_hi))))))
           _ _ _ Hrun) (ProviderError "rate limit") eq_refl).
Defined.

(** * Learning reflects first *)

(** C9: [agent.learn] takes a session id and no insights.  Its first call
    is the reflection call of [agent.reflect] on the transcript of the
    session.  If that call fails the insights stay as they were; otherwise
    its text is what [agent.reflect] returns and stores, the learning call
    that follows is made on that text, and, whether the learning call
    fails or not, the insights of the agent are that text afterwards. *)
Theorem agent_learn_reflects_first sid (a : Agent) :
  first_prompt (SelfImprovingAgent.learn sid a)
  = first_prompt (SelfImprovingAgent.reflect sid a) /\
  first_prompt (SelfImprovingAgent.reflect sid a)
  = Some (reflection_prompt (transcript (store a) sid)) /\
  forall tr r a',
    Runs (SelfImprovingAgent.learn sid a) tr r a' ->
    (exists e,
        tr = [(reflection_prompt (transcript (store a) sid), inl e)] /\
        r = inl e /\ insights a' = insights a) \/
    (exists text a1,
        Runs (SelfImprovingAgent.reflect sid a)
             [(reflection_prompt (transcript (store a) sid), inr text)]
             (inr text) a1 /\
        insights a1 = text /\
        tr = [(reflection_prompt (transcript (store a) sid), inr text);
              ([mkMessage system "Based on these insights, update the agent's knowledge and behavior:";
                mkMessage human text;
                mkMessage human "Summarize the key points to remember:"], r)] /\
        insights a' = text).
Proof.
  split; [| split].
  - destruct (agent_learn_unfold sid a) as (k & -> & _).
    by destruct (agent_reflect_unfold sid a) as (k' & -> & _).
  - by destruct (agent_reflect_unfold sid a) as (k' & -> & _).
  - intros tr r a' H.
    apply agent_learn_runs in H as [(e & -> & -> & ->) | (text & -> & ->)].
    + left. by exists e.
    + right. exists text, (touched a sid text).
      split; [by apply agent_reflect_runs |].
      split; [done |]. split; [done |]. by destruct r.
Qed.

Lemma agent_learn_reflects_first_witness :
  Runs (SelfImprovingAgent.learn "s1" after_hi) learn_calls (inr "brevity") after_learn /\
  insights after_hi = "" /\
  insights after_learn = "be concise".
Proof.
  split; [exact after_hi_learn |]. split; [reflexivity |].
  destruct (proj2 (proj2 (agent_learn_reflects_first "s1" after_hi))
              learn_calls (inr "brevity") after_learn after_hi_learn)
    as [(e & Htr & _) | (text & a1 & _ & _ & Htr & Hins)].
  - discriminate Htr.
  - rewrite Hins. by injection Htr.
Defined.

(** * Sessions do not interfere in the store *)

Lemma session_local_refl sid (st : Store) : session_local sid st st.
Proof. split; [done | by left]. Qed.

Lemma session_local_insert sid msgs (st : Store) :
  session_local sid st (<[sid := transcript st sid ++ msgs]> st).
Proof.
  split; [| right; by exists msgs].
  intros other Hne. by apply lookup_insert_ne.
Qed.

Lemma session_local_touch sid (st : Store) :
  session_local sid st (<[sid := transcript st sid]> st).
Proof.
  rewrite <- (app_nil_r (transcript st sid)) at 1. apply session_local_insert.
Qed.

(** C10: a call of [respond], [reflect] or [learn] for the session [A],
    helper function or method, failed or not, leaves the entry of every
    other session of the store as it was; the store after the call is the
    store before it, or that store with the history of [A] created or
    extended. *)
Theorem operations_session_local (A : string) input ins (st : Store) (a : Agent) :
  (forall tr r st',
      Runs (generate_response SelfImprovingAgent.chain_with_history input A ins st)
           tr r st' ->
      session_local A st st') /\
  (forall tr r st', Runs (reflect A st) tr r st' -> session_local A st st') /\
  (forall tr r st', Runs (learn A ins st) tr r st' -> session_local A st st') /\
  (forall tr r a', Runs (SelfImprovingAgent.respond input A a) tr r a' ->
                   session_local A (store a) (store a')) /\
  (forall tr r a', Runs (SelfImprovingAgent.reflect A a) tr r a' ->
                   session_local A (store a) (store a')) /\
  (forall tr r a', Runs (SelfImprovingAgent.learn A a) tr r a' ->
                   session_local A (store a) (store a')).
Proof.
  repeat apply conj; intros tr r s' H.
  - apply generate_response_runs in H as (_ & ->).
    destruct r; [apply session_local_touch | apply session_local_insert].
  - apply reflect_runs in H as (_ & ->). apply session_local_touch.
  - apply learn_runs in H as (_ & ->).
    destruct r; [apply session_local_refl | apply session_local_insert].
  - apply agent_respond_runs in H as (_ & ->).
    destruct r; [apply session_local_touch | apply session_local_insert].
  - apply agent_reflect_runs in H as (_ & ->). apply session_local_touch.
  - apply agent_learn_runs in H as [(e & _ & _ & ->) | (text & _ & ->)];
      [apply session_local_touch |].
    destruct r; [apply session_local_touch | apply session_local_insert].
Qed.

Lemma operations_session_local_witness :
  Runs (SelfImprovingAgent.learn "s1" after_hi) learn_calls (inr "brevity") after_learn /\
  "s2" <> "s1" /\
  store after_learn !! "s2" = store after_hi !! "s2".
Proof.
  assert (Hne : "s2" <> "s1") by discriminate.
  split; [exact after_hi_learn |]. split; [exact Hne |].
  exact (proj1 (proj2 (proj2 (proj2 (proj2 (proj2
           (operations_session_local "s1" "" "" ∅ after_hi)))))
           learn_calls (inr "brevity") after_learn after_hi_learn) "s2" Hne).
Defined.

(** * The store under sequences of calls *)

Lemma Runs_mapState_inv {S T A} (g : S -> T) (p : Prog S A) tr r t :
  Runs (mapState g p) tr r t -> exists s, t = g s /\ Runs p tr r s.
Proof.
  revert tr. induction p as [r0 s0 | prompt k IH]; intros tr H; simpl in H.
  - apply Runs_Done_inv in H as (-> & -> & ->). eauto with runs.
  - apply Runs_Invoke_inv in H as (ans & tr' & -> & H).
    apply IH in H as (s & -> & H). eauto with runs.
Qed.

(** What a method call leaves in the store: the history of its session,
    created if need be, with the turns the call added. *)
Lemma perform_store c (a : Agent) tr r a' :
  Runs (perform c a) tr r a' ->
  store a' = <[session_of c := transcript (store a) (session_of c) ++ added_turns c r]>
               (store a).
Proof.
  destruct c as [input sid | sid | sid]; simpl; intros H.
  - apply agent_respond_runs in H as (_ & ->).
    destruct r; simpl; by rewrite ?app_nil_r.
  - apply agent_reflect_runs in H as (_ & ->).
    destruct r; simpl; by rewrite ?app_nil_r.
  - apply agent_learn_runs in H as [(e & _ & -> & ->) | (text & _ & ->)].
    + simpl. by rewrite app_nil_r.
    + destruct r; simpl; by rewrite ?app_nil_r.
Qed.

Lemma perform_transcript c (a : Agent) tr r a' sid :
  Runs (perform c a) tr r a' ->
  transcript (store a') sid
  = transcript (store a) sid
    ++ (if decide (session_of c = sid) then added_turns c r else []).
Proof.
  intros H. rewrite (perform_store _ _ _ _ _ H).
  destruct (decide (session_of c = sid)) as [<- | Hne].
  - apply transcript_insert_eq.
  - rewrite transcript_insert_ne by done. by rewrite app_nil_r.
Qed.

Lemma turns_of_snoc sid log ev :
  turns_of sid (log ++ [ev])
  = turns_of sid log
    ++ (if decide (session_of (call ev) = sid)
        then added_turns (call ev) (outcome ev) else []).
Proof.
  unfold turns_of. rewrite map_app, concat_app. simpl. by rewrite app_nil_r.
Qed.

(** X1: [get_chat_history] makes no call to the model and raises
    nothing; after it the store knows the session; it changes no
    transcript, so it never resets a history that exists, and no entry of
    another session; a second call changes nothing more. *)
Theorem get_chat_history_creates_once sid (st : Store) tr r st' :
  Runs (get_chat_history sid st) tr r st' ->
  tr = [] /\ r = inr sid /\
  is_Some (st' !! sid) /\
  (forall h, st !! sid = Some h -> st' = st) /\
  (forall sid', transcript st' sid' = transcript st sid') /\
  (forall other, other <> sid -> st' !! other = st !! other) /\
  get_chat_history sid st' = Done (inr sid) st'.
Proof.
  rewrite get_chat_history_spec. intros H. finished H.
  split; [done |]. split; [done |].
  split; [by rewrite lookup_insert_eq |].
  split; [intros h Hh; apply touch_known; by rewrite Hh |].
  split; [intros sid'; apply transcript_touch |].
  split; [intros other Hne; by apply lookup_insert_ne |].
  rewrite get_chat_history_spec. by rewrite transcript_insert_eq, insert_insert_eq.
Qed.

Lemma get_chat_history_creates_once_witness :
  Runs (get_chat_history "s2" (store after_hi)) [] (inr "s2")
       (<["s2" := []]> (store after_hi)) /\
  "s1" <> "s2" /\
  is_Some (<["s2" := []]> (store after_hi) !! "s2") /\
  <["s2" := []]> (store after_hi) !! "s1" = store after_hi !! "s1".
Proof.
  assert (Hrun : Runs (get_chat_history "s2" (store after_hi)) [] (inr "s2")
                      (<["s2" := []]> (store after_hi))).
  { rewrite get_chat_history_spec. constructor. }
  assert (Hne : "s1" <> "s2") by discriminate.
  split; [exact Hrun |]. split; [exact Hne |].
  destruct (get_chat_history_creates_once _ _ _ _ _ Hrun)
    as (_ & _ & Hknown & _ & _ & Hother & _).
  split; [exact Hknown | exact (Hother "s1" Hne)].
Defined.

Lemma steps_transcript (a : Agent) log a' sid :
  Steps a log a' ->
  transcript (store a') sid = transcript (store a) sid ++ turns_of sid log.
Proof.
  induction 1 as [a | a log a1 c tr r a2 _ IH Hrun].
  - unfold turns_of. simpl. by rewrite app_nil_r.
  - rewrite (perform_transcript _ _ _ _ _ sid Hrun), IH, turns_of_snoc.
    simpl. by rewrite app_assoc.
Qed.

(** X2: transcripts are append-only, and a log of calls tells them.
    After any sequence of method calls, ended in any way, the transcript
    of every session is what it was followed by the turns of the calls on
    that session that returned: input and reply of a [respond], the marked
    turn of a [learn]; calls that failed, calls of [reflect] and calls on
    other sessions add nothing.  On a fresh agent the transcript is
    those turns. *)
Theorem transcript_follows_log (a : Agent) log a' sid :
  Steps a log a' ->
  transcript (store a') sid = transcript (store a) sid ++ turns_of sid log /\
  transcript (store a) sid `prefix_of` transcript (store a') sid /\
  (a = SelfImprovingAgent.init -> transcript (store a') sid = turns_of sid log).
Proof.
  intros H. pose proof (steps_transcript _ _ _ sid H) as Heq.
  split; [exact Heq |]. split.
  - rewrite Heq. by apply prefix_app_r.
  - intros ->. by rewrite Heq.
Qed.

Lemma transcript_follows_log_witness :
  Steps SelfImprovingAgent.init
        (([] ++ [mkEvent (Respond "Hi" "s1")
                         [(SelfImprovingAgent.prompt [] "Hi" "", inr "Hello")]
                         (inr "Hello")])
            ++ [mkEvent (Learn "s1") learn_calls (inr "brevity")])
        after_learn /\
  transcript (store after_learn) "s1"
  = [HumanMessage "Hi"; AIMessage "Hello";
     AIMessage "[SYSTEM] Agent learned: brevity"].
Proof.
  assert (Hsteps : Steps SelfImprovingAgent.init
        (([] ++ [mkEvent (Respond "Hi" "s1")
                         [(SelfImprovingAgent.prompt [] "Hi" "", inr "Hello")]
                         (inr "Hello")])
            ++ [mkEvent (Learn "s1") learn_calls (inr "brevity")])
        after_learn).
  { eapply Steps_snoc; [eapply Steps_snoc; [apply Steps_nil |] |].
    - exact init_respond_hi.
    - exact after_hi_learn. }
  split; [exact Hsteps |].
  exact (proj2 (proj2 (transcript_follows_log _ _ _ "s1" Hsteps)) eq_refl).
Defined.

(** X3: a session is known to the store as soon as a method was called
    with its id, even if the call failed, and no session is ever removed:
    after a sequence of calls the sessions of the store are those it had
    and those of the calls. *)
Theorem sessions_follow_log (a : Agent) log a' :
  Steps a log a' ->
  dom (store a') = dom (store a) ∪ sessions_of log.
Proof.
  induction 1 as [a | a log a1 c tr r a2 _ IH Hrun].
  - unfold sessions_of. simpl. by rewrite union_empty_r_L.
  - rewrite (perform_store _ _ _ _ _ Hrun), dom_insert_L, IH.
    unfold sessions_of. rewrite map_app, list_to_set_app_L. simpl.
    rewrite union_empty_r_L, (union_comm_L {[session_of c]}).
    by rewrite union_assoc_L.
Qed.

Lemma sessions_follow_log_witness :
  Steps SelfImprovingAgent.init
        ([] ++ [mkEvent (Respond "Hi" "s1")
                  [(SelfImprovingAgent.prompt [] "Hi" "",
                    inl (ProviderError "rate limit"))]
                  (inl (ProviderError "rate limit"))])
        (touched SelfImprovingAgent.init "s1" "") /\
  dom (store (touched SelfImprovingAgent.init "s1" "")) = ∅ ∪ {["s1"]} ∪ (∅ : gset string).
Proof.
  assert (Hsteps : Steps SelfImprovingAgent.init
        ([] ++ [mkEvent (Respond "Hi" "s1")
                  [(SelfImprovingAgent.prompt [] "Hi" "",
                    inl (ProviderError "rate limit"))]
                  (inl (ProviderError "rate limit"))])
        (touched SelfImprovingAgent.init "s1" "")).
  { eapply Steps_snoc; [apply Steps_nil |].
    apply agent_respond_runs. split; reflexivity. }
  split; [exact Hsteps |].
  rewrite (sessions_follow_log _ _ _ Hsteps).
  unfold sessions_of. simpl. by rewrite dom_empty_L.
Defined.

(** X4: a call that fails records nothing.  When a method raises, every
    transcript is as it was before the call: the input of a failed
    [respond] is not kept.  A failed [respond] or [reflect] leaves the
    insights alone as well, and a failed helper [learn] the whole store. *)
Theorem failed_call_keeps_transcripts c (a : Agent) sid ins (st : Store) :
  (forall tr e a',
      Runs (perform c a) tr (inl e) a' ->
      (forall sid', transcript (store a') sid' = transcript (store a) sid') /\
      ((forall s, c <> Learn s) -> insights a' = insights a)) /\
  (forall tr e st', Runs (learn sid ins st) tr (inl e) st' -> st' = st).
Proof.
  split.
  - intros tr e a' H. split.
    + intros sid'. rewrite (perform_transcript _ _ _ _ _ sid' H).
      destruct c; simpl; case_decide; by rewrite app_nil_r.
    + intros Hc. destruct c as [input s | s | s]; simpl in H.
      * by apply agent_respond_runs in H as (_ & ->).
      * by apply agent_reflect_runs in H as (_ & ->).
      * by destruct (Hc s).
  - intros tr e st' H. by apply learn_runs in H as (_ & ->).
Qed.

Lemma failed_call_keeps_transcripts_witness :
  Runs (perform (Respond "More" "s1") after_hi)
       [(SelfImprovingAgent.prompt [HumanMessage "Hi"; AIMessage "Hello"] "More" "",
         inl (ProviderError "rate limit"))]
       (inl (ProviderError "rate limit")) (touched after_hi "s1" "") /\
  transcript (store (touched after_hi "s1" "")) "s1" = transcript (store after_hi) "s1".
Proof.
  assert (Hrun : Runs (perform (Respond "More" "s1") after_hi)
       [(SelfImprovingAgent.prompt [HumanMessage "Hi"; AIMessage "Hello"] "More" "",
         inl (ProviderError "rate limit"))]
       (inl (ProviderError "rate limit")) (touched after_hi "s1" "")).
  { apply agent_respond_runs. split; reflexivity. }
  split; [exact Hrun |].
  exact (proj1 (proj1 (failed_call_keeps_transcripts (Respond "More" "s1")
                         after_hi "" "" ∅) _ _ _ Hrun) "s1").
Defined.

(** * The insights under sequences of calls *)

Lemma last_reflection_app tr1 tr2 before :
  last_reflection (tr1 ++ tr2) before
  = last_reflection tr2 (last_reflection tr1 before).
Proof.
  revert before. induction tr1 as [| [q [e | text]] tr1 IH]; intros before;
    simpl; auto.
Qed.

Lemma respond_prompt_not_reflection history input ins :
  is_reflection_prompt (SelfImprovingAgent.prompt history input ins) = false.
Proof. reflexivity. Qed.

Lemma learning_prompt_not_reflection ins :
  is_reflection_prompt (learning_prompt ins) = false.
Proof. reflexivity. Qed.

Lemma reflection_prompt_is_reflection history :
  is_reflection_prompt (reflection_prompt history) = true.
Proof. reflexivity. Qed.

(** What a method call leaves in the insights. *)
Lemma perform_insights c (a : Agent) tr r a' :
  Runs (perform c a) tr r a' ->
  insights a' = last_reflection tr (insights a).
Proof.
  destruct c as [input sid | sid | sid]; simpl; intros H.
  - apply agent_respond_runs in H as (-> & ->).
    destruct r; cbn [last_reflection]; by rewrite ?respond_prompt_not_reflection.
  - apply agent_reflect_runs in H as (-> & ->).
    destruct r; cbn [last_reflection];
      by rewrite ?reflection_prompt_is_reflection.
  - apply agent_learn_runs in H as [(e & -> & -> & ->) | (text & -> & ->)];
      [done |].
    destruct r; cbn [last_reflection];
      by rewrite reflection_prompt_is_reflection, ?learning_prompt_not_reflection.
Qed.

(** X5: the insights of the agent are, at any time, the last text the
    model gave in answer to a reflection prompt, and empty on an agent
    that got none: replies of [respond], learned points and failed calls
    never reach them, and a later reflection replaces them whole. *)
Theorem insights_are_last_reflection (a : Agent) log a' :
  Steps a log a' ->
  insights a' = last_reflection (exchanges_of log) (insights a) /\
  (a = SelfImprovingAgent.init ->
   insights a' = last_reflection (exchanges_of log) "").
Proof.
  intros H.
  assert (Heq : insights a' = last_reflection (exchanges_of log) (insights a)).
  { induction H as [a | a log a1 c tr r a2 _ IH Hrun]; [done |].
    unfold exchanges_of. rewrite map_app, concat_app, last_reflection_app.
    simpl. rewrite app_nil_r. fold (exchanges_of log). rewrite <- IH.
    exact (perform_insights _ _ _ _ _ Hrun). }
  split; [exact Heq | by intros ->].
Qed.

Lemma insights_are_last_reflection_witness :
  Steps SelfImprovingAgent.init
        (([] ++ [mkEvent (Respond "Hi" "s1")
                         [(SelfImprovingAgent.prompt [] "Hi" "", inr "Hello")]
                         (inr "Hello")])
            ++ [mkEvent (Learn "s1") learn_calls (inr "brevity")])
        after_learn /\
  insights after_learn = "be concise".
Proof.
  assert (Hsteps : Steps SelfImprovingAgent.init
        (([] ++ [mkEvent (Respond "Hi" "s1")
                         [(SelfImprovingAgent.prompt [] "Hi" "", inr "Hello")]
                         (inr "Hello")])
            ++ [mkEvent (Learn "s1") learn_calls (inr "brevity")])
        after_learn).
  { eapply Steps_snoc; [eapply Steps_snoc; [apply Steps_nil |] |].
    - exact init_respond_hi.
    - exact after_hi_learn. }
  split; [exact Hsteps |].
  exact (proj2 (insights_are_last_reflection _ _ _ Hsteps) eq_refl).
Defined.

(** * The shape of transcripts *)

Lemma well_paired_app_both u :
  well_paired u = true ->
  forall t,
    (well_paired t = true -> well_paired (t ++ u) = true) /\
    (forall m, well_paired (m :: t) = true -> well_paired (m :: t ++ u) = true).
Proof.
  intros Hu. induction t as [| x t [IH1 IH2]].
  - split; [done |]. intros [[] text]; simpl; by try done.
  - split; [exact (IH2 x) |].
    intros [[] text]; simpl; try done.
    + intros [Hx Ht]%andb_prop. rewrite Hx. simpl. by apply IH1.
    + apply (IH2 x).
Qed.

Lemma well_paired_app t u :
  well_paired t = true -> well_paired u = true -> well_paired (t ++ u) = true.
Proof. intros Ht Hu. by apply (well_paired_app_both u Hu t). Qed.

Lemma well_paired_turns_of sid log : well_paired (turns_of sid log) = true.
Proof.
  induction log as [| ev log IH] using rev_ind; [done |].
  rewrite turns_of_snoc. apply well_paired_app; [done |].
  case_decide; [| done].
  destruct ev as [[input s | s | s] tr [e | text]]; by simpl.
Qed.

(** What a well paired transcript is, turn by turn. *)
Lemma well_paired_turns n t :
  length t <= n -> well_paired t = true ->
  (forall m, m ∈ t -> role m <> system) /\
  (forall i m, t !! i = Some m -> role m = human ->
               exists m', t !! (S i) = Some m' /\ role m' = ai) /\
  (forall m, last t = Some m -> role m = ai).
Proof.
  revert t. induction n as [| n IH]; intros [| m t] Hlen Hwp;
    try (simpl in Hlen; lia);
    try (split; [by intros m' ?%elem_of_nil | split; by intros]).
  simpl in Hlen. destruct m as [[] text]; simpl in Hwp; try done.
  - destruct t as [| m' t]; [done |].
    apply andb_prop in Hwp as [Hai%bool_decide_eq_true Hwp].
    destruct (IH t ltac:(simpl in Hlen; lia) Hwp) as (Hno & Hpair & Hlast).
    split; [| split].
    + intros x [-> | [-> | Hx]%elem_of_cons]%elem_of_cons;
        [done | by rewrite Hai | by apply Hno].
    + intros [| [| i]] x Hx Hrole; simplify_eq/=.
      * eauto.
      * by rewrite Hai in Hrole.
      * eauto.
    + intros x Hx. destruct t as [| m'' t]; simplify_eq/=; [done |].
      by apply Hlast.
  - destruct (IH t ltac:(lia) Hwp) as (Hno & Hpair & Hlast).
    split; [| split].
    + intros x [-> | Hx]%elem_of_cons; [done | by apply Hno].
    + intros [| i] x Hx Hrole; simplify_eq/=. eauto.
    + intros x Hx. destruct t as [| m' t]; simplify_eq/=; [done |].
      by apply Hlast.
Qed.

(** X6: whatever calls were made on a fresh agent and however they
    ended, no transcript holds a system message, every human turn is
    directly followed by an agent turn, and a transcript that is not empty
    ends with an agent turn. *)
Theorem transcripts_well_paired log (a : Agent) sid :
  Steps SelfImprovingAgent.init log a ->
  well_paired (transcript (store a) sid) = true /\
  (forall m, m ∈ transcript (store a) sid -> role m <> system) /\
  (forall i m, transcript (store a) sid !! i = Some m -> role m = human ->
               exists m', transcript (store a) sid !! (S i) = Some m' /\
                          role m' = ai) /\
  (forall m, last (transcript (store a) sid) = Some m -> role m = ai).
Proof.
  intros H.
  assert (Hwp : well_paired (transcript (store a) sid) = true).
  { rewrite (steps_transcript _ _ _ sid H). apply well_paired_turns_of. }
  split; [exact Hwp |]. by eapply well_paired_turns.
Qed.

Lemma transcripts_well_paired_witness :
  Steps SelfImprovingAgent.init
        (([] ++ [mkEvent (Respond "Hi" "s1")
                         [(SelfImprovingAgent.prompt [] "Hi" "", inr "Hello")]
                         (inr "Hello")])
            ++ [mkEvent (Learn "s1") learn_calls (inr "brevity")])
        after_learn /\
  well_paired (transcript (store after_learn) "s1") = true.
Proof.
  assert (Hsteps : Steps SelfImprovingAgent.init
        (([] ++ [mkEvent (Respond "Hi" "s1")
                         [(SelfImprovingAgent.prompt [] "Hi" "", inr "Hello")]
                         (inr "Hello")])
            ++ [mkEvent (Learn "s1") learn_calls (inr "brevity")])
        after_learn).
  { eapply Steps_snoc; [eapply Steps_snoc; [apply Steps_nil |] |].
    - exact init_respond_hi.
    - exact after_hi_learn. }
  split; [exact Hsteps |].
  exact (proj1 (transcripts_well_paired _ _ "s1" Hsteps)).
Defined.

(** * How calls compose *)

(** X7: reflection overwrites the insights, it does not add to them.
    A call of [agent.reflect] or [agent.learn] whose reflection is
    answered sends the same prompts and leaves the same agent whatever
    the insights were before it. *)
Theorem reflection_forgets_old_insights sid (a b : Agent) :
  store a = store b ->
  (forall tr text a',
      Runs (SelfImprovingAgent.reflect sid a) tr (inr text) a' ->
      Runs (SelfImprovingAgent.reflect sid b) tr (inr text) a') /\
  (forall tr text rest r a',
      Runs (SelfImprovingAgent.learn sid a) ((tr, inr text) :: rest) r a' ->
      Runs (SelfImprovingAgent.learn sid b) ((tr, inr text) :: rest) r a').
Proof.
  intros Hst. split.
  - intros tr text a' H. apply agent_reflect_runs in H as (-> & ->).
    apply agent_reflect_runs. unfold touched. by rewrite Hst.
  - intros tr text rest r a' H.
    apply agent_learn_runs in H as [(e & [=] & _) | (text' & [= -> -> ->] & ->)].
    apply agent_learn_runs. right. exists text'.
    unfold touched, appended. rewrite Hst. split; [done | by destruct r].
Qed.

Lemma reflection_forgets_old_insights_witness :
  store after_hi = store {| store := store after_hi; insights := "be verbose" |} /\
  Runs (SelfImprovingAgent.learn "s1" after_hi) learn_calls (inr "brevity") after_learn /\
  Runs (SelfImprovingAgent.learn "s1"
          {| store := store after_hi; insights := "be verbose" |})
       learn_calls (inr "brevity") after_learn.
Proof.
  assert (Hst : store after_hi
                = store {| store := store after_hi; insights := "be verbose" |})
    by reflexivity.
  split; [exact Hst |]. split; [exact after_hi_learn |].
  exact (proj2 (reflection_forgets_old_insights "s1" after_hi _ Hst)
               _ _ _ _ _ after_hi_learn).
Defined.

Lemma agent_respond_runs_added input sid (a : Agent) tr r a' :
  Runs (SelfImprovingAgent.respond input sid a) tr r a' <->
  tr = [(SelfImprovingAgent.prompt (transcript (store a) sid) input (insights a), r)] /\
  a' = appended a sid (added_turns (Respond input sid) r) (insights a).
Proof.
  rewrite agent_respond_runs.
  destruct r; simpl; unfold touched, appended; by rewrite ?app_nil_r.
Qed.

(** X8: calls of [respond] on distinct sessions do not interfere.  Two
    such calls, made in either order and ended in any way, send the same
    prompts, get the same outcomes and leave the same agent. *)
Theorem responds_on_distinct_sessions_commute
    (A B : string) inputA inputB (a : Agent) trA rA trB rB a1 a2 :
  A <> B ->
  Runs (SelfImprovingAgent.respond inputA A a) trA rA a1 ->
  Runs (SelfImprovingAgent.respond inputB B a1) trB rB a2 ->
  exists b1,
    Runs (SelfImprovingAgent.respond inputB B a) trB rB b1 /\
    Runs (SelfImprovingAgent.respond inputA A b1) trA rA a2.
Proof.
  intros Hne HA HB.
  apply agent_respond_runs_added in HA as (-> & ->).
  apply agent_respond_runs_added in HB as (-> & ->).
  simpl. rewrite transcript_insert_ne by done.
  exists (appended a B (added_turns (Respond inputB B) rB) (insights a)).
  split; [by apply agent_respond_runs_added |].
  apply agent_respond_runs_added. simpl.
  rewrite transcript_insert_ne by done. split; [done |].
  unfold appended. simpl.
  rewrite !transcript_insert_ne by done. by rewrite insert_insert_ne.
Qed.

Lemma responds_on_distinct_sessions_commute_witness :
  "s1" <> "s2" /\
  exists b1,
    Runs (SelfImprovingAgent.respond "Hey" "s2" SelfImprovingAgent.init)
         [(SelfImprovingAgent.prompt [] "Hey" "", inl (ProviderError "rate limit"))]
         (inl (ProviderError "rate limit")) b1 /\
    Runs (SelfImprovingAgent.respond "Hi" "s1" b1)
         [(SelfImprovingAgent.prompt [] "Hi" "", inr "Hello")]
         (inr "Hello") (touched after_hi "s2" "").
Proof.
  assert (Hne : "s1" <> "s2") by discriminate.
  split; [exact Hne |].
  apply (responds_on_distinct_sessions_commute "s1" "s2" "Hi" "Hey"
           SelfImprovingAgent.init _ _ _ _ after_hi _ Hne init_respond_hi).
  apply agent_respond_runs. split; reflexivity.
Defined.

Lemma elem_of_middle (x : Message) before old after :
  x ∈ before ++ (old ++ [x]) ++ after.
Proof.
  rewrite !elem_of_app. right; left; right. by apply list_elem_of_singleton.
Qed.

(** X9: what was learned stays in front of the model.  After a call of
    [agent.learn] on a session that returned, the next prompt of
    [respond], of [agent.reflect] and of [agent.learn] on that session
    holds the marked turn with the learned points. *)
Theorem learned_turn_in_later_prompts sid (a : Agent) tr points a' input :
  Runs (SelfImprovingAgent.learn sid a) tr (inr points) a' ->
  exists p q q',
    first_prompt (SelfImprovingAgent.respond input sid a') = Some p /\
    first_prompt (SelfImprovingAgent.reflect sid a') = Some q /\
    first_prompt (SelfImprovingAgent.learn sid a') = Some q' /\
    AIMessage ("[SYSTEM] Agent learned: " +:+ points) ∈ p /\
    AIMessage ("[SYSTEM] Agent learned: " +:+ points) ∈ q /\
    AIMessage ("[SYSTEM] Agent learned: " +:+ points) ∈ q'.
Proof.
  intros H.
  apply agent_learn_runs in H as [(e & _ & [=] & _) | (text & _ & ->)].
  destruct (agent_respond_unfold input sid
              (appended a sid [AIMessage (learned_marker +:+ points)] text))
    as (k1 & -> & _).
  destruct (agent_reflect_unfold sid
              (appended a sid [AIMessage (learned_marker +:+ points)] text))
    as (k2 & -> & _).
  destruct (agent_learn_unfold sid
              (appended a sid [AIMessage (learned_marker +:+ points)] text))
    as (k3 & -> & _).
  do 3 eexists. do 3 (split; [reflexivity |]).
  simpl. rewrite transcript_insert_eq.
  unfold SelfImprovingAgent.prompt, reflection_prompt.
  repeat split; apply elem_of_middle.
Qed.

Lemma learned_turn_in_later_prompts_witness :
  Runs (SelfImprovingAgent.learn "s1" after_hi) learn_calls (inr "brevity") after_learn /\
  exists p q q',
    first_prompt (SelfImprovingAgent.respond "More" "s1" after_learn) = Some p /\
    first_prompt (SelfImprovingAgent.reflect "s1" after_learn) = Some q /\
    first_prompt (SelfImprovingAgent.learn "s1" after_learn) = Some q' /\
    AIMessage ("[SYSTEM] Agent learned: " +:+ "brevity") ∈ p /\
    AIMessage ("[SYSTEM] Agent learned: " +:+ "brevity") ∈ q /\
    AIMessage ("[SYSTEM] Agent learned: " +:+ "brevity") ∈ q'.
Proof.
  split; [exact after_hi_learn |].
  exact (learned_turn_in_later_prompts "s1" after_hi learn_calls "brevity"
           after_learn "More" after_hi_learn).
Defined.

(** X10: a session the store does not know.  There [reflect] still
    calls the model, with its two fixed messages and nothing between
    them, and leaves the session with an empty history however the call
    ends; and [agent.learn], when it returns, leaves a history that holds
    the marked turn alone, an agent turn that answers no human turn. *)
Theorem unknown_session_calls sid (a : Agent) :
  store a !! sid = None ->
  first_prompt (SelfImprovingAgent.reflect sid a)
  = Some [mkMessage system "Based on the following conversation history, provide insights on how to improve responses:";
          mkMessage human "Generate insights for improvement:"] /\
  (forall tr r a', Runs (SelfImprovingAgent.reflect sid a) tr r a' ->
                   store a' !! sid = Some []) /\
  (forall tr points a',
      Runs (SelfImprovingAgent.learn sid a) tr (inr points) a' ->
      store a' !! sid = Some [mkMessage ai ("[SYSTEM] Agent learned: " +:+ points)]).
Proof.
  intros Hnone.
  assert (Hempty : transcript (store a) sid = [])
    by (unfold transcript; by rewrite Hnone).
  split; [| split].
  - destruct (agent_reflect_unfold sid a) as (k & -> & _). simpl.
    by rewrite Hempty.
  - intros tr r a' H. apply agent_reflect_runs in H as (_ & ->). simpl.
    by rewrite lookup_insert_eq, Hempty.
  - intros tr points a' H.
    apply agent_learn_runs in H as [(e & _ & [=] & _) | (text & _ & ->)].
    simpl. by rewrite lookup_insert_eq, Hempty.
Qed.

Lemma unknown_session_calls_witness :
  store after_hi !! "s2" = None /\
  first_prompt (SelfImprovingAgent.reflect "s2" after_hi)
  = Some [mkMessage system "Based on the following conversation history, provide insights on how to improve responses:";
          mkMessage human "Generate insights for improvement:"].
Proof.
  assert (Hnone : store after_hi !! "s2" = None) by (by vm_compute).
  split; [exact Hnone |].
  exact (proj1 (unknown_session_calls "s2" after_hi Hnone)).
Defined.

(** * The example cell *)

Lemma string_app_assoc (s t u : string) : (s +:+ t) +:+ u = s +:+ t +:+ u.
Proof.
  induction s as [| c s IH]; [done |].
  change (String c ((s +:+ t) +:+ u) = String c (s +:+ t +:+ u)). by f_equal.
Qed.

Lemma with_agent_runs {A} (m : M Agent A) nb tr r nb' :
  Runs (with_agent m nb) tr r nb' ->
  exists a', nb' = {| agent := a'; stdout := stdout nb |} /\
             Runs (m (agent nb)) tr r a'.
Proof. intros H. by apply Runs_mapState_inv in H. Qed.

Lemma transcript_singleton sid (h : list Message) :
  transcript {[sid := h]} sid = h.
Proof. unfold transcript. by rewrite lookup_singleton_eq. Qed.

Lemma appended_init sid msgs ins :
  appended SelfImprovingAgent.init sid msgs ins
  = {| store := {[sid := msgs]}; insights := ins |}.
Proof. reflexivity. Qed.

Lemma appended_singleton sid (h : list Message) msgs ins ins' :
  appended {| store := {[sid := h]}; insights := ins |} sid msgs ins'
  = {| store := {[sid := h ++ msgs]}; insights := ins' |}.
Proof.
  unfold appended. simpl. by rewrite transcript_singleton, insert_singleton_eq.
Qed.

Ltac next_statement H H1 :=
  cbv beta zeta in H;
  apply Runs_bindP_inv in H as [(? & [=] & _) | (? & ? & ? & ? & -> & H1 & H)].
Ltac printed H :=
  let H1 := fresh in
  next_statement H H1; apply Runs_Done_inv in H1 as (-> & _ & ->).
Ltac called H H1 :=
  next_statement H H1; apply with_agent_runs in H1 as (? & -> & H1);
  cbn [agent stdout] in H1.

(** X11: the example cell, when all its calls return.  It makes six
    calls to the model: two replies, the reflection, the learning, two
    replies; it prints the four replies and the learned points, not the
    reflection; it leaves a transcript of nine turns for its session, the
    marked turn in the middle, and the reflection text as insights; and
    its third question goes out with the marked turn in the history and
    the reflection text in the note. *)
Theorem example_usage_returns nb tr nb' :
  Runs (example_usage nb) tr (inr tt) nb' ->
  exists reply1 reply2 text learned reply3 reply4,
    map snd tr = [inr reply1; inr reply2; inr text; inr learned;
                  inr reply3; inr reply4] /\
    stdout nb'
    = stdout nb
      +:+ "AI: " +:+ reply1 +:+ newline
      +:+ "AI: " +:+ reply2 +:+ newline
      +:+ newline +:+ "Reflecting and learning..." +:+ newline
      +:+ "Learned: " +:+ learned +:+ newline
      +:+ newline +:+ "AI: " +:+ reply3 +:+ newline
      +:+ "AI: " +:+ reply4 +:+ newline /\
    agent nb'
    = {| store :=
           {["user_123" :=
               [HumanMessage "What's the capital of France?"; AIMessage reply1;
                HumanMessage "Can you tell me more about its history?"; AIMessage reply2;
                AIMessage ("[SYSTEM] Agent learned: " +:+ learned);
                HumanMessage "What's a famous landmark in this city?"; AIMessage reply3;
                HumanMessage "What's another interesting fact about this city?";
                AIMessage reply4]]};
         insights := text |} /\
    map fst tr !! 4
    = Some (SelfImprovingAgent.prompt
              [HumanMessage "What's the capital of France?"; AIMessage reply1;
               HumanMessage "Can you tell me more about its history?"; AIMessage reply2;
               AIMessage ("[SYSTEM] Agent learned: " +:+ learned)]
              "What's a famous landmark in this city?" text).
Proof.
  intros H. unfold example_usage in H.
  unfold bind at 1 in H. printed H.
  called H H1. apply agent_respond_runs in H1 as (-> & ->).
  rewrite appended_init in H. printed H.
  called H H1. apply agent_respond_runs in H1 as (-> & ->).
  rewrite appended_singleton in H. printed H. printed H.
  called H H1.
  apply agent_learn_runs in H1 as [(e & _ & [=] & _) | (text & -> & ->)].
  rewrite appended_singleton in H. printed H.
  called H H1. apply agent_respond_runs in H1 as (-> & ->).
  rewrite appended_singleton in H. printed H.
  called H H1. apply agent_respond_runs in H1 as (-> & ->).
  rewrite appended_singleton in H.
  apply Runs_Done_inv in H as (-> & _ & ->).
  do 6 eexists. split; [reflexivity |]. split; [| split].
  - unfold print2, print. simpl. by rewrite !string_app_assoc.
  - reflexivity.
  - simpl. by rewrite transcript_singleton.
Qed.

Lemma example_usage_returns_witness :
  fst (fst (run scripted (example_usage fresh_notebook) example_answers)) = inr tt /\
  insights (agent (snd (fst (run scripted (example_usage fresh_notebook)
                                 example_answers))))
  = "be concise".
Proof.
  assert (Hok : fst (fst (run scripted (example_usage fresh_notebook)
                              example_answers)) = inr tt) by (by vm_compute).
  split; [exact Hok |].
  pose proof (Runs_run scripted (example_usage fresh_notebook) example_answers)
    as Hrun.
  rewrite Hok in Hrun.
  destruct (example_usage_returns _ _ _ Hrun)
    as (reply1 & reply2 & text & learned & reply3 & reply4 & Htr & _ & Hag & _).
  rewrite Hag. simpl. vm_compute in Htr. by injection Htr as _ _ <- _ _ _.
Defined.

(** * Callers give up at the first failure *)

Lemma aborts_done {S A} (a : A) (s : S) : aborts_on_failure (Done (inr a) s).
Proof.
  intros tr r s' H. finished H. split.
  - intros before q e after Heq. by destruct before.
  - by intros e.
Qed.

Lemma aborts_bind {S A B} (m : M S A) (f : A -> M S B) (s : S) :
  aborts_on_failure (m s) ->
  (forall a s', aborts_on_failure (f a s')) ->
  aborts_on_failure (bind m f s).
Proof.
  intros Hm Hf tr r s' H. unfold bind in H.
  apply Runs_bindP_inv in H
    as [(e & -> & H) | (a & s1 & tr1 & tr2 & -> & H1 & H2)].
  - destruct (Hm _ _ _ H) as [Hm1 Hm2]. split.
    + intros before q e' after Heq.
      by destruct (Hm1 _ _ _ _ Heq) as [-> [= ->]].
    + intros e' [= <-]. by apply Hm2.
  - destruct (Hm _ _ _ H1) as [Hm1 _]. destruct (Hf _ _ _ _ _ H2) as [Hf1 Hf2].
    split.
    + intros before q e after Heq.
      apply app_eq_inv in Heq as [(k & -> & Hk) | (k & -> & ->)].
      * destruct k as [| x k]; simplify_eq/=.
        -- by apply (Hf1 [] q e after).
        -- by destruct (Hm1 before q e k eq_refl) as [_ [=]].
      * by apply (Hf1 k q e after).
    + intros e He. destruct (Hf2 e He) as (before & q & ->).
      exists (tr1 ++ before), q. by rewrite app_assoc.
Qed.

Lemma aborts_with_agent {A} (m : M Agent A) nb :
  aborts_on_failure (m (agent nb)) -> aborts_on_failure (with_agent m nb).
Proof.
  intros Hm tr r nb' H. apply with_agent_runs in H as (a' & _ & H).
  exact (Hm _ _ _ H).
Qed.

Lemma agent_respond_aborts input sid (a : Agent) :
  aborts_on_failure (SelfImprovingAgent.respond input sid a).
Proof.
  apply one_call_aborts. intros tr r s H.
  apply agent_respond_runs in H as (-> & _). eauto.
Qed.

Lemma agent_learn_aborts sid (a : Agent) :
  aborts_on_failure (SelfImprovingAgent.learn sid a).
Proof.
  intros tr r s H.
  apply agent_learn_runs in H as [(e & -> & -> & _) | (text & -> & _)]; split.
  - intros before q e' after Heq.
    destruct before as [| c [| c' before]]; by simplify_eq/=.
  - intros e' [= <-]. by eexists [], _.
  - intros before q e' after Heq.
    destruct before as [| c [| c' [| c'' before]]]; by simplify_eq/=.
  - intros e' ->. by eexists [_], _.
Qed.

(** X12: the example cell gives up at the first failure.  However it
    runs, a call of the model that fails is the last call the cell makes,
    the exception of that call is the outcome of the cell, and the cell
    ends with no exception but one the model raised. *)
Theorem example_usage_aborts nb tr r nb' :
  Runs (example_usage nb) tr r nb' ->
  (forall before q e after,
      tr = before ++ (q, inl e) :: after -> after = [] /\ r = inl e) /\
  (forall e, r = inl e -> exists before q, tr = before ++ [(q, inl e)]).
Proof.
  revert tr r nb'. change (aborts_on_failure (example_usage nb)).
  unfold example_usage.
  repeat first
    [ apply aborts_done
    | apply aborts_with_agent
    | apply agent_respond_aborts
    | apply agent_learn_aborts
    | apply aborts_bind; [| intros ? ?; cbv beta zeta] ].
Qed.

Lemma example_usage_aborts_witness :
  fst (fst (run scripted (example_usage fresh_notebook)
                [inr "Paris."; inr "It is old."; inl (ProviderError "rate limit")]))
  = inl (ProviderError "rate limit") /\
  exists before q,
    trace scripted (example_usage fresh_notebook)
          [inr "Paris."; inr "It is old."; inl (ProviderError "rate limit")]
    = before ++ [(q, inl (ProviderError "rate limit"))].
Proof.
  assert (Hfail : fst (fst (run scripted (example_usage fresh_notebook)
                     [inr "Paris."; inr "It is old."; inl (ProviderError "rate limit")]))
                  = inl (ProviderError "rate limit")) by (by vm_compute).
  split; [exact Hfail |].
  pose proof (Runs_run scripted (example_usage fresh_notebook)
                [inr "Paris."; inr "It is old."; inl (ProviderError "rate limit")])
    as Hrun.
  rewrite Hfail in Hrun.
  exact (proj2 (example_usage_aborts _ _ _ _ Hrun) _ eq_refl).
Defined.
